(** * pyrs: the C-like transpiler base ([pyrs/clike.py])

    A shallow embedding of [CLikeTranspiler], the [ast.NodeVisitor] subclass
    that turns a Python syntax tree into Rust-flavoured text, and the
    properties of its translation rules.

    The embedding follows CPython 3.8 to 3.13, the versions on which the
    module runs as written: literals are [ast.Constant] nodes, and the
    inherited [NodeVisitor.visit_Constant] hands them to [visit_Num],
    [visit_Str] and [visit_NameConstant].  What the class inherits from the
    standard library ([NodeVisitor.visit], [generic_visit],
    [visit_Constant]) and the built-ins it calls ([str], [str.format],
    [str.join], [str.replace], [str.lower]) are written out here as they
    behave on the values the visitor handles.  Trees are well formed in the
    sense of the abstract grammar of the [ast] module. *)

From Stdlib Require Import ZArith Ascii Lia.
From Stdlib Require String DecimalString DecimalZ.
From stdpp Require Import base option list gmap strings.

Set Warnings "-register-all".

Local Open Scope Z_scope.

(** ** Text helpers *)

(** The double-quote character and the one-character string made of it. *)
Definition dquote : ascii := Ascii.ascii_of_nat 34.
Definition DQ : string := String dquote EmptyString.

(** The backslash. *)
Definition backslash : ascii := Ascii.ascii_of_nat 92.

(** The line feed, as a one-character string. *)
Definition newline : string := String (Ascii.ascii_of_nat 10) EmptyString.

(** [sep.join(items)] on items already known to be strings. *)
Fixpoint join (sep : string) (items : list string) : string :=
  match items with
  | [] => EmptyString
  | [x] => x
  | x :: rest => x +:+ sep +:+ join sep rest
  end.

(** Concatenation of a list of strings, left to right. *)
Definition concat_str (l : list string) : string :=
  foldr String.append EmptyString l.

(** [s.replace(old, new)] for a one-character [old]. *)
Fixpoint replace_char (old : ascii) (new : string) (s : string) : string :=
  match s with
  | EmptyString => EmptyString
  | String c rest =>
      if Ascii.eqb c old then new +:+ replace_char old new rest
      else String c (replace_char old new rest)
  end.

(** [s.lower()] on ASCII text. *)
Definition lower_char (c : ascii) : ascii :=
  let n := Ascii.nat_of_ascii c in
  if ((65 <=? n)%nat && (n <=? 90)%nat)%bool then Ascii.ascii_of_nat (n + 32) else c.

Fixpoint lower (s : string) : string :=
  match s with
  | EmptyString => EmptyString
  | String c rest => String (lower_char c) (lower rest)
  end.

(** ** The syntax tree of Python's [ast] module *)

Module ast.

Inductive boolop := And | Or.

Inductive operator :=
| Add | Sub | Mult | MatMult | Div | Mod | Pow
| LShift | RShift | BitOr | BitXor | BitAnd | FloorDiv.

Inductive unaryop := Invert | Not | UAdd | USub.

Inductive cmpop := Eq | NotEq | Lt | LtE | Gt | GtE | Is | IsNot | In | NotIn.

#[global] Instance boolop_eq_dec : EqDecision boolop.
Proof. solve_decision. Defined.

#[global] Instance operator_eq_dec : EqDecision operator.
Proof. solve_decision. Defined.

#[global] Instance unaryop_eq_dec : EqDecision unaryop.
Proof. solve_decision. Defined.

#[global] Instance cmpop_eq_dec : EqDecision cmpop.
Proof. solve_decision. Defined.

(** A Python [float], an IEEE 754 binary64 datum: an infinity, a NaN, or
    the finite value [m * 2 ^ e], negated when [negative] is set.  The datum
    is in canonical form when [binary64 m e] holds (see below); zero is
    [m = 0]. *)
Inductive pyfloat :=
| Finf (negative : bool)
| Fnan
| Ffinite (negative : bool) (m e : Z).

(** A number held by a [Constant] node: an [int], a [float] or a
    [complex] with its real and imaginary parts. *)
Inductive number :=
| NInt (n : Z)
| NFloat (f : pyfloat)
| NComplex (re im : pyfloat).

(** The value of a [Constant] node.  The parser gives the first six kinds;
    a tuple or a frozenset of constants is what constant folding leaves. *)
Inductive constant :=
| CNone
| CBool (b : bool)
| CNum (n : number)
| CStr (s : string)
| CBytes (b : string)
| CEllipsis
| CTuple (items : list constant)
| CFrozenset (items : list constant).

(** Statements and expressions.  [Name] records whether the node carries
    an [is_annotation] attribute; [Other] stands for every node class
    that [CLikeTranspiler] has no method for ([Call], [Attribute],
    [Assign], [Expr], ...), with its child nodes in field order.  The parts
    of a [JoinedStr] are the two kinds of node the parser puts there: a
    [Constant] holding a string ([Text]) and a [FormattedValue], whose
    [format_spec], when present, is itself a [JoinedStr] given here by
    its [values]. *)
Inductive node :=
| Name (id : string) (is_annotation : bool)
| Constant (value : constant)
| JoinedStr (values : list fpart)
| Return (value : option node)
| If (test : node) (body orelse : list node)
| Continue
| Break
| Pass
| While (test : node) (body orelse : list node)
| Compare (left : node) (ops : list cmpop) (comparators : list node)
| BoolOp (op : boolop) (values : list node)
| BinOp (left : node) (op : operator) (right : node)
| UnaryOp (op : unaryop) (operand : node)
| AugAssign (target : node) (op : operator) (value : node)
| Other (class_name : string) (children : list node)
with fpart :=
| Text (value : string)
| FormattedValue (value : node) (conversion : Z)
    (format_spec : option (list fpart)).

(** [type(node)]: the class of a node, operator nodes included. *)
Inductive type :=
| type_boolop (o : boolop)
| type_operator (o : operator)
| type_unaryop (o : unaryop)
| type_cmpop (o : cmpop)
| type_Name | type_Constant | type_JoinedStr | type_Return | type_If
| type_Continue | type_Break | type_Pass | type_While | type_Compare
| type_BoolOp | type_BinOp | type_UnaryOp | type_AugAssign
| type_Other (class_name : string).

Definition type_of (n : node) : type :=
  match n with
  | Name _ _ => type_Name
  | Constant _ => type_Constant
  | JoinedStr _ => type_JoinedStr
  | Return _ => type_Return
  | If _ _ _ => type_If
  | Continue => type_Continue
  | Break => type_Break
  | Pass => type_Pass
  | While _ _ _ => type_While
  | Compare _ _ _ => type_Compare
  | BoolOp _ _ => type_BoolOp
  | BinOp _ _ _ => type_BinOp
  | UnaryOp _ _ => type_UnaryOp
  | AugAssign _ _ _ => type_AugAssign
  | Other name _ => type_Other name
  end.

End ast.

(** ** Python values and exceptions *)

(** What a visitor method returns: a string or [None]. *)
Inductive pyval :=
| VStr (s : string)
| VNone.

Inductive exn :=
| KeyError (key : ast.type)
| IndexError
| AttributeError
| TypeError
| ValueError.

Inductive result (A : Type) :=
| Ok (a : A)
| Raise (e : exn).
Arguments Ok {A} a.
Arguments Raise {A} e.

#[global] Instance result_ret : MRet result := fun _ a => Ok a.
#[global] Instance result_bind : MBind result := fun _ _ f r =>
  match r with
  | Ok a => f a
  | Raise e => Raise e
  end.

(** A list comprehension [[f(x) for x in l]]: left to right, stopping at the
    first exception. *)
Definition mapM {A B : Type} (f : A -> result B) : list A -> result (list B) :=
  fix go (l : list A) : result (list B) :=
    match l with
    | [] => Ok []
    | x :: rest =>
        match f x with
        | Ok y =>
            match go rest with
            | Ok ys => Ok (y :: ys)
            | Raise e => Raise e
            end
        | Raise e => Raise e
        end
    end.

(** How [str.format] renders an argument for a [{0}] field. *)
Definition format_arg (v : pyval) : string :=
  match v with
  | VStr s => s
  | VNone => "None"
  end.

(** An item of the list given to [str.join] has to be a string. *)
Definition join_item (v : pyval) : result string :=
  match v with
  | VStr s => Ok s
  | VNone => Raise TypeError
  end.

(** [sep.join(items)]. *)
Definition str_join (sep : string) (items : list pyval) : result string :=
  match mapM join_item items with
  | Ok l => Ok (join sep l)
  | Raise e => Raise e
  end.

(** ** Printing numbers: [str] on [int], [float] and [complex] *)

(** The decimal digits of a natural number, without sign. *)
Definition decimal_digits (z : Z) : string :=
  DecimalString.NilZero.string_of_uint (N.to_uint (Z.to_N z)).

(** [sys.get_int_max_str_digits()] at its default, 4300: the conversion of
    an [int] to decimal text is refused beyond that many digits.
    [int_max_str] is [10 ^ 4300], the least magnitude with more digits. *)
Definition int_max_str : Z := Eval vm_compute in 10 ^ 4300.

(** [str(n)] for an [int]: a [ValueError] for a magnitude of more than 4300
    digits, else the decimal text, with a minus sign for a negative
    value. *)
Definition str_int (n : Z) : result string :=
  if int_max_str <=? Z.abs n then Raise ValueError
  else Ok (DecimalString.NilZero.string_of_int (Z.to_int n)).

(** *** Floats

    A finite binary64 in canonical form: a mantissa below [2 ^ 53] and an
    exponent from -1074 to 971, the mantissa of at least [2 ^ 52] unless the
    exponent is the least one (subnormal numbers and zero). *)
Definition binary64 (m e : Z) : bool :=
  (0 <=? m) && (m <? 2 ^ 53) && (-1074 <=? e) && (e <=? 971)
  && ((2 ^ 52 <=? m) || (e =? -1074)).

(** The integer nearest to [num / den], the even one of the two at equal
    distance ([0 <= num], [0 < den]). *)
Definition round_half_even (num den : Z) : Z :=
  let q := num / den in
  let r := num mod den in
  match 2 * r ?= den with
  | Lt => q
  | Gt => q + 1
  | Eq => if Z.even q then q else q + 1
  end.

(** The binary number of [p] bits and of exponent from [emin] to [emax]
    nearest to the rational [num / den] ([0 <= num], [0 < den]), ties to
    even, as a canonical mantissa and exponent; [None] when the result is
    beyond the largest finite number.  The exponent is that of the binade of
    [num / den], found on the integer part of [num / den * 2 ^ (- emin)],
    and not below [emin]. *)
Definition round_binary (p emin emax : Z) (num den : Z) : option (Z * Z) :=
  let e := Z.max (Z.log2 (num * 2 ^ (- emin) / den) + emin - (p - 1)) emin in
  let m :=
    if 0 <=? e then round_half_even num (den * 2 ^ e)
    else round_half_even (num * 2 ^ (- e)) den in
  let '(m, e) := if m =? 2 ^ p then (2 ^ (p - 1), e + 1) else (m, e) in
  if emax <? e then None else Some (m, e).

(** The rounding on the scale of the least exponent: with
    [scaled = num * 2 ^ (- emin)], the mantissa is the rounding of
    [scaled / (den * 2 ^ s)] for [s] the exponent above [emin]. *)
Definition round_scaled (p : Z) (scaled den : Z) : Z * Z :=
  let s := Z.max (Z.log2 (scaled / den) - (p - 1)) 0 in
  let m := round_half_even scaled (den * 2 ^ s) in
  if m =? 2 ^ p then (2 ^ (p - 1), s + 1) else (m, s).

(** The formats binary64 (Python's [float], Rust's [f64]) and binary32
    (Rust's [f32]). *)
Definition round_binary64 : Z -> Z -> option (Z * Z) :=
  round_binary 53 (-1074) 971.

Definition round_binary32 : Z -> Z -> option (Z * Z) :=
  round_binary 24 (-149) 104.

(** The decimal [d * 10 ^ k] and the binary [m * 2 ^ e] as fractions. *)
Definition decimal_fraction (d k : Z) : Z * Z :=
  if 0 <=? k then (d * 10 ^ k, 1) else (d, 10 ^ (- k)).

Definition binary_fraction (m e : Z) : Z * Z :=
  if 0 <=? e then (m * 2 ^ e, 1) else (m, 2 ^ (- e)).

(** The binary64 a decimal [d * 10 ^ k] is read as. *)
Definition round_decimal (d k : Z) : option (Z * Z) :=
  let '(num, den) := decimal_fraction d k in round_binary64 num den.

(** A finite binary32 in canonical form, the binary64 of the same value,
    and the binary32 of the value of a binary64 that has one. *)
Definition binary32 (m e : Z) : bool :=
  (0 <=? m) && (m <? 2 ^ 24) && (-149 <=? e) && (e <=? 104)
  && ((2 ^ 23 <=? m) || (e =? -149)).

Definition widen (m e : Z) : Z * Z :=
  if m =? 0 then (0, -1074)
  else let shift := 52 - Z.log2 m in (m * 2 ^ shift, e - shift).

Definition narrow (m e : Z) : option (Z * Z) :=
  let shift := Z.max 29 (-149 - e) in
  if (m mod 2 ^ shift =? 0) && (e + shift <=? 104) then
    Some (m / 2 ^ shift, e + shift)
  else None.

(** The decimal exponent of [m * 2 ^ e]: the [x] with
    [10 ^ x <= m * 2 ^ e < 10 ^ (x + 1)], counted on the digits of the
    integer part of [m * 2 ^ e * 10 ^ 400]. *)
Definition floor_log10 (m e : Z) : Z :=
  let '(num, den) := binary_fraction m e in
  Z.of_nat (String.length (decimal_digits (num * 10 ^ 400 / den))) - 401.

(** The multiples of [10 ^ k] next to [m * 2 ^ e], as the integers [d] of
    [d * 10 ^ k]: the value itself when it is such a multiple, else the one
    below and the one above, the nearer first and, at equal distance, the
    even one first. *)
Definition candidates (m e k : Z) : list Z :=
  let '(vn, vd) := binary_fraction m e in
  let '(num, den) :=
    if 0 <=? k then (vn, vd * 10 ^ k) else (vn * 10 ^ (- k), vd) in
  let q := num / den in
  let r := num mod den in
  if r =? 0 then [q]
  else
    match 2 * r ?= den with
    | Lt => [q; q + 1]
    | Gt => [q + 1; q]
    | Eq => if Z.even q then [q; q + 1] else [q + 1; q]
    end.

(** The decimal [d * 10 ^ k] is read back as the binary64 [m * 2 ^ e]. *)
Definition round_trips (m e k d : Z) : bool :=
  match round_decimal d k with
  | Some (m', e') => (m' =? m) && (e' =? e)
  | None => false
  end.

(** The digits of [repr]: the shortest decimal that is read back as the
    float, the nearest to it among the shortest (the runtime's
    [_Py_dg_dtoa] in mode 0).  The search tries [n] significant digits for
    [n = 1, 2, ...]; [fuel] is the number of digits at which the decimal
    expansion of the float is exact. *)
Fixpoint shortest (m e dl n : Z) (fuel : nat) : Z * Z :=
  let k := dl - n + 1 in
  match fuel with
  | O => (hd 0 (candidates m e k), k)
  | S fuel' =>
      match List.filter (round_trips m e k) (candidates m e k) with
      | d :: _ => (d, k)
      | [] => shortest m e dl (n + 1) fuel'
      end
  end.

Definition shortest_decimal (m e : Z) : Z * Z :=
  let dl := floor_log10 m e in
  shortest m e dl 1 (Z.to_nat (Z.max 1 (dl + 1 - Z.min e 0))).

(** Digits without the zeros at their end. *)
Fixpoint strip_zeros (s : string) : string :=
  match s with
  | EmptyString => EmptyString
  | String c rest =>
      match strip_zeros rest with
      | EmptyString =>
          if Ascii.eqb c "0" then EmptyString else String c EmptyString
      | r => String c r
      end
  end.

Fixpoint zeros (n : nat) : string :=
  match n with
  | O => EmptyString
  | S n' => String "0" (zeros n')
  end.

(** An exponent printed by [%+.02d], without its sign. *)
Definition two_digits (z : Z) : string :=
  if z <? 10 then String "0" (decimal_digits z) else decimal_digits z.

(** The layout of [repr] (format code [r] of [PyOS_double_to_string]) for
    the digits [ds] of a value [0.ds * 10 ^ decpt]: exponent notation when
    [decpt <= -4] or [decpt > 16], else positional notation, with [.0]
    after an integer when [add_dot_0] is set. *)
Definition format_digits (ds : string) (decpt : Z) (add_dot_0 : bool) :
    string :=
  let nd := Z.of_nat (String.length ds) in
  if (decpt <=? -4) || (16 <? decpt) then
    let mantissa :=
      match ds with
      | EmptyString => EmptyString
      | String d EmptyString => String d EmptyString
      | String d rest => String d (String "." rest)
      end in
    let x := decpt - 1 in
    mantissa +:+ "e" +:+ (if x <? 0 then "-" else "+") +:+ two_digits (Z.abs x)
  else if decpt <=? 0 then
    "0." +:+ zeros (Z.to_nat (- decpt)) +:+ ds
  else if decpt <? nd then
    String.substring 0 (Z.to_nat decpt) ds +:+ "." +:+
    String.substring (Z.to_nat decpt) (Z.to_nat (nd - decpt)) ds
  else
    ds +:+ zeros (Z.to_nat (decpt - nd))
    +:+ (if add_dot_0 then ".0" else EmptyString).

(** [PyOS_double_to_string(x, 'r', 0, flags, NULL)]: [always_sign] is the
    flag [Py_DTSF_SIGN], [add_dot_0] the flag [Py_DTSF_ADD_DOT_0]. *)
Definition format_float (always_sign add_dot_0 : bool) (f : ast.pyfloat) :
    string :=
  let sign (negative : bool) :=
    if negative then "-" else if always_sign then "+" else EmptyString in
  match f with
  | ast.Finf negative => sign negative +:+ "inf"
  | ast.Fnan => sign false +:+ "nan"
  | ast.Ffinite negative m e =>
      if m =? 0 then sign negative +:+ format_digits "0" 1 add_dot_0
      else
        let '(d, k) := shortest_decimal m e in
        let ds := decimal_digits d in
        sign negative
        +:+ format_digits (strip_zeros ds) (k + Z.of_nat (String.length ds))
              add_dot_0
  end.

(** [str(x)] for a [float]. *)
Definition str_float (f : ast.pyfloat) : string := format_float false true f.

(** [str(z)] for a [complex]: the imaginary part alone when the real part
    is the positive zero, else both parts between parentheses. *)
Definition str_complex (re im : ast.pyfloat) : string :=
  match re with
  | ast.Ffinite false 0 _ => format_float false false im +:+ "j"
  | _ =>
      "(" +:+ format_float false false re +:+ format_float true false im
      +:+ "j)"
  end.

(** [str(n)] for the number of a [Constant] node. *)
Definition str_number (n : ast.number) : result string :=
  match n with
  | ast.NInt z => str_int z
  | ast.NFloat f => Ok (str_float f)
  | ast.NComplex re im => Ok (str_complex re im)
  end.

(** ** The tables of [clike.py] *)

(** The dictionary [symbols], from node classes to C symbols.  [None] is a
    class that is not a key. *)
Definition symbols (t : ast.type) : option string :=
  match t with
  | ast.type_cmpop ast.Eq => Some "=="
  | ast.type_cmpop ast.Is => Some "=="
  | ast.type_cmpop ast.NotEq => Some "!="
  | ast.type_Pass => Some "/*pass*/"
  | ast.type_operator ast.Mult => Some "*"
  | ast.type_operator ast.Add => Some "+"
  | ast.type_operator ast.Sub => Some "-"
  | ast.type_operator ast.Div => Some "/"
  | ast.type_operator ast.FloorDiv => Some "/"
  | ast.type_operator ast.Mod => Some "%"
  | ast.type_cmpop ast.Lt => Some "<"
  | ast.type_cmpop ast.Gt => Some ">"
  | ast.type_cmpop ast.GtE => Some ">="
  | ast.type_cmpop ast.LtE => Some "<="
  | ast.type_operator ast.LShift => Some "<<"
  | ast.type_operator ast.RShift => Some ">>"
  | ast.type_operator ast.BitXor => Some "^"
  | ast.type_operator ast.BitOr => Some "|"
  | ast.type_operator ast.BitAnd => Some "&"
  | ast.type_unaryop ast.Not => Some "!"
  | ast.type_cmpop ast.IsNot => Some "!="
  | ast.type_unaryop ast.USub => Some "-"
  | ast.type_boolop ast.And => Some "&&"
  | ast.type_boolop ast.Or => Some "||"
  | ast.type_cmpop ast.In => Some "in"
  | _ => None
  end.

Definition type_map : gmap string string :=
  list_to_map
    [ ("int", "i32");
      ("float", "f32");
      ("bytes", "&[u8]");
      ("str", "&str") ].

(** Allowed as names in Python but treated as keywords in Rust. *)
Definition rust_keywords : gset string :=
  list_to_set
    [ "struct"; "type"; "match"; "impl"; "const"; "enum"; "extern"; "fn";
      "loop"; "move"; "mut"; "pub"; "ref"; "trait"; "where"; "use";
      "unsafe" ].

(** [CLikeTranspiler.builtin_constants]. *)
Definition builtin_constants : gset string :=
  list_to_set [ "True"; "False" ].

(** Find the equivalent C symbol for a Python ast symbol node: the lookup
    [symbols[type(node)]], which raises [KeyError] on a missing key. *)
Definition c_symbol (symbol_type : ast.type) : result string :=
  match symbols symbol_type with
  | Some s => Ok s
  | None => Raise (KeyError symbol_type)
  end.

(** ** The visitor *)

(** A [for] loop that updates one variable: left to right, stopping at the
    first exception. *)
Definition foldM {A B : Type} (f : B -> A -> result B) :
    list A -> B -> result B :=
  fix go (l : list A) (acc : B) : result B :=
    match l with
    | [] => Ok acc
    | x :: rest =>
        match f acc x with
        | Ok acc' => go rest acc'
        | Raise e => Raise e
        end
    end.

(** [CLikeTranspiler.visit] on an operator node.  Such a node has no fields
    and the class has no method named after it: when its class is not a key
    of [symbols], the inherited [NodeVisitor.visit] ends in [generic_visit],
    which finds nothing to traverse and returns [None]. *)
Definition visit_symbol (t : ast.type) : result pyval :=
  match symbols t with
  | Some _ => s ← c_symbol t; Ok (VStr s)
  | None => Ok VNone
  end.

Definition visit_Name (id : string) (is_annotation : bool) : result pyval :=
  if decide (id ∈ builtin_constants) then Ok (VStr (lower id))
  else if decide (id ∈ rust_keywords) then Ok (VStr (id +:+ "_"))
  else if is_annotation then
    match type_map !! id with
    | Some t => Ok (VStr t)
    | None => Ok (VStr id)
    end
  else Ok (VStr id).

(** [value] is [None] for Python's [None] and [Some b] for a [bool]. *)
Definition visit_NameConstant (value : option bool) : result pyval :=
  match value with
  | Some true => Ok (VStr "true")
  | Some false => Ok (VStr "false")
  | None => Ok VNone
  end.

Definition visit_Num (n : ast.number) : result pyval :=
  text ← str_number n; Ok (VStr text).

Definition visit_Str (s : string) : result pyval :=
  Ok (VStr (DQ +:+ replace_char dquote (String backslash DQ) s +:+ DQ)).

(** The inherited [NodeVisitor.visit_Constant]: it picks the method by the
    type of the value, and falls back to [generic_visit] (which returns
    [None], a [Constant] having no child node) for [bytes] and [Ellipsis],
    for which [CLikeTranspiler] has no method, and for a tuple or a
    frozenset, which it does not know. *)
Definition visit_Constant (value : ast.constant) : result pyval :=
  match value with
  | ast.CNone => visit_NameConstant None
  | ast.CBool b => visit_NameConstant (Some b)
  | ast.CNum n => visit_Num n
  | ast.CStr s => visit_Str s
  | ast.CBytes _ | ast.CEllipsis => Ok VNone
  | ast.CTuple _ | ast.CFrozenset _ => Ok VNone
  end.

Definition visit_Continue : result pyval := Ok (VStr "continue;").

Definition visit_Break : result pyval := Ok (VStr "break;").

(** [visit_FormatSpec(node)] reads [node.values[0].s]; only a [Constant]
    has the attribute [s]. *)
Definition visit_FormatSpec (values : list ast.fpart) : result string :=
  match values with
  | [] => Raise IndexError
  | ast.Text formatting_string :: _ => Ok ("{:#" +:+ formatting_string +:+ "}")
  | ast.FormattedValue _ _ _ :: _ => Raise AttributeError
  end.

Section CLikeTranspiler.

(** [self.visit], the method the others call on their children. *)
Variable visit : ast.node -> result pyval.

(** [node.value] is an expression of the tree, neither [None] nor a [str],
    which leaves the branch [self.visit(node.value)]. *)
Definition visit_FormattedValue (value : ast.node) : result pyval :=
  visit value.

(** The comprehension that opens [visit_JoinedStr]: the parts that are not
    [Constant] nodes, each through [visit_FormattedValue]. *)
Definition formatted_values : list ast.fpart -> result (list pyval) :=
  fix go (values : list ast.fpart) : result (list pyval) :=
    match values with
    | [] => Ok []
    | ast.Text _ :: rest => go rest
    | ast.FormattedValue value _ _ :: rest =>
        match visit_FormattedValue value with
        | Ok v =>
            match go rest with
            | Ok vs => Ok (v :: vs)
            | Raise e => Raise e
            end
        | Raise e => Raise e
        end
    end.

(** One turn of the loop of [visit_JoinedStr]. *)
Definition add_part (response : string) (value : ast.fpart) : result string :=
  match value with
  | ast.Text text => Ok (response +:+ text)
  | ast.FormattedValue _ _ None => Ok (response +:+ "{:?}")
  | ast.FormattedValue _ _ (Some format_spec) =>
      placeholder ← visit_FormatSpec format_spec;
      Ok (response +:+ placeholder)
  end.

Definition visit_JoinedStr (values : list ast.fpart) : result pyval :=
  formatted ← formatted_values values;
  response ← foldM add_part values ("format!(" +:+ DQ);
  args ← str_join "," formatted;
  Ok (VStr (response +:+ (DQ +:+ "," +:+ args +:+ ")"))).

Definition visit_Return (value : option ast.node) : result pyval :=
  match value with
  | Some value => v ← visit value; Ok (VStr ("return " +:+ format_arg v +:+ ";"))
  | None => Ok (VStr "return;")
  end.

Definition visit_If (test : ast.node) (body orelse : list ast.node) :
    result pyval :=
  t ← visit test;
  let buf := [VStr ("if " +:+ format_arg t +:+ " {")] in
  children ← mapM visit body;
  let buf := buf ++ children in
  orelse ← mapM visit orelse;
  let buf :=
    match orelse with
    | [] => buf ++ [VStr "}"]
    | _ :: _ => (buf ++ [VStr "} else {"]) ++ orelse ++ [VStr "}"]
    end in
  text ← str_join newline buf;
  Ok (VStr text).

Definition visit_While (test : ast.node) (body : list ast.node) :
    result pyval :=
  t ← visit test;
  let buf := [VStr ("while " +:+ format_arg t +:+ " {")] in
  children ← mapM visit body;
  let buf := (buf ++ children) ++ [VStr "}"] in
  text ← str_join newline buf;
  Ok (VStr text).

Definition visit_Compare (left : ast.node) (ops : list ast.cmpop)
    (comparators : list ast.node) : result pyval :=
  l ← visit left;
  op ← match ops with
       | [] => Raise IndexError
       | o :: _ => visit_symbol (ast.type_cmpop o)
       end;
  r ← match comparators with
      | [] => Raise IndexError
      | c :: _ => visit c
      end;
  match ops with
  | ast.In :: _ => Ok (VStr (format_arg r +:+ ".any(" +:+ format_arg l +:+ ")"))
  | _ => Ok (VStr (format_arg l +:+ " " +:+ format_arg op +:+ " " +:+ format_arg r))
  end.

(** [op.join(...)]: the attribute [join] is looked up on [op] before the
    operands are visited, and [None] has no such attribute. *)
Definition visit_BoolOp (op : ast.boolop) (values : list ast.node) :
    result pyval :=
  op ← visit_symbol (ast.type_boolop op);
  match op with
  | VNone => Raise AttributeError
  | VStr sep =>
      vs ← mapM visit values;
      text ← str_join sep vs;
      Ok (VStr text)
  end.

Definition visit_BinOp (left : ast.node) (op : ast.operator)
    (right : ast.node) : result pyval :=
  match op with
  | ast.Pow =>
      l ← visit left;
      r ← visit right;
      Ok (VStr (format_arg l +:+ ".pow(" +:+ format_arg r +:+ ")"))
  | ast.Mult | ast.Div =>
      l ← visit left;
      o ← visit_symbol (ast.type_operator op);
      r ← visit right;
      Ok (VStr ("(" +:+ format_arg l +:+ format_arg o +:+ format_arg r +:+ ")"))
  | _ =>
      l ← visit left;
      o ← visit_symbol (ast.type_operator op);
      r ← visit right;
      Ok (VStr ("(" +:+ format_arg l +:+ " " +:+ format_arg o +:+ " "
                 +:+ format_arg r +:+ ")"))
  end.

Definition visit_UnaryOp (op : ast.unaryop) (operand : ast.node) :
    result pyval :=
  o ← visit_symbol (ast.type_unaryop op);
  v ← visit operand;
  Ok (VStr (format_arg o +:+ format_arg v)).

Definition visit_AugAssign (target : ast.node) (op : ast.operator)
    (value : ast.node) : result pyval :=
  target ← visit target;
  op ← visit_symbol (ast.type_operator op);
  val ← visit value;
  Ok (VStr (format_arg target +:+ " " +:+ format_arg op +:+ "= "
             +:+ format_arg val +:+ ";")).

(** The inherited [NodeVisitor.generic_visit]: visit the child nodes,
    return [None]. *)
Definition generic_visit (children : list ast.node) : result pyval :=
  _ ← mapM visit children;
  Ok VNone.

End CLikeTranspiler.

(** [CLikeTranspiler.visit]: a node whose class is a key of [symbols] is
    answered by [c_symbol]; any other goes to the inherited
    [NodeVisitor.visit], which calls the method named after the class of
    the node and [generic_visit] when there is none. *)
Fixpoint visit (node : ast.node) : result pyval :=
  match symbols (ast.type_of node) with
  | Some _ => s ← c_symbol (ast.type_of node); Ok (VStr s)
  | None =>
      match node with
      | ast.Name id is_annotation => visit_Name id is_annotation
      | ast.Constant value => visit_Constant value
      | ast.JoinedStr values => visit_JoinedStr visit values
      | ast.Return value => visit_Return visit value
      | ast.If test body orelse => visit_If visit test body orelse
      | ast.Continue => visit_Continue
      | ast.Break => visit_Break
      | ast.Pass => generic_visit visit []
      | ast.While test body _ => visit_While visit test body
      | ast.Compare lhs ops comparators =>
          visit_Compare visit lhs ops comparators
      | ast.BoolOp op values => visit_BoolOp visit op values
      | ast.BinOp lhs op rhs => visit_BinOp visit lhs op rhs
      | ast.UnaryOp op operand => visit_UnaryOp visit op operand
      | ast.AugAssign target op value => visit_AugAssign visit target op value
      | ast.Other _ children => generic_visit visit children
      end
  end.

(** ** Spec-side notions used to state the properties *)

(** The text opens and closes with a parenthesis around some body. *)
Definition wrapped_in_parens (s : string) : Prop :=
  ∃ body, s = "(" +:+ body +:+ ")".

(** A part of an interpolated string as the specification sees it: a run of
    literal text, or an expression segment with the text its inner
    expression translates to and the text of its specifier, if it has
    one. *)
Inductive segment :=
| Literal (text : string)
| Expression (inner : ast.node) (translation : string)
    (specifier : option string).

(** The placeholder of an expression segment: the debug placeholder without
    a specifier, one that embeds the specifier text otherwise. *)
Definition placeholder (specifier : option string) : string :=
  match specifier with
  | None => "{:?}"
  | Some text => "{:#" +:+ text +:+ "}"
  end.

(** What a segment contributes to the template. *)
Definition template_piece (s : segment) : string :=
  match s with
  | Literal text => text
  | Expression _ _ specifier => placeholder specifier
  end.

(** The placeholders and the arguments of the segments, left to right. *)
Fixpoint placeholders (l : list segment) : list string :=
  match l with
  | [] => []
  | Literal _ :: rest => placeholders rest
  | Expression _ _ specifier :: rest => placeholder specifier :: placeholders rest
  end.

Fixpoint arguments (l : list segment) : list string :=
  match l with
  | [] => []
  | Literal _ :: rest => arguments rest
  | Expression _ translation _ :: rest => translation :: arguments rest
  end.

(** The inner expressions of the expression segments of an interpolated
    string, left to right, and their number. *)
Fixpoint inner_expressions (values : list ast.fpart) : list ast.node :=
  match values with
  | [] => []
  | ast.Text _ :: rest => inner_expressions rest
  | ast.FormattedValue inner _ _ :: rest => inner :: inner_expressions rest
  end.

Definition expression_segments (values : list ast.fpart) : nat :=
  length (inner_expressions values).

(** [describes s part]: the segment [s] is what the part [part] of a
    [JoinedStr] stands for.  The translation of an expression segment is the
    text [visit] returns for its inner expression; its specifier text is the
    literal run that opens the [format_spec]. *)
Inductive describes : segment -> ast.fpart -> Prop :=
| describes_literal (text : string) :
    describes (Literal text) (ast.Text text)
| describes_bare (inner : ast.node) (translation : string) (conversion : Z) :
    visit inner = Ok (VStr translation) ->
    describes (Expression inner translation None)
      (ast.FormattedValue inner conversion None)
| describes_specified (inner : ast.node) (translation : string)
    (conversion : Z) (text : string) (more : list ast.fpart) :
    visit inner = Ok (VStr translation) ->
    describes (Expression inner translation (Some text))
      (ast.FormattedValue inner conversion (Some (ast.Text text :: more))).

(** *** The placeholders of a template

    A template of [format!] is read left to right: [{{] and [}}] stand for a
    brace, any other [{] opens a placeholder that runs to the next [}], and
    a [}] that closes nothing, a [{] inside a placeholder or a placeholder
    left open make the template ill-formed.  [scan_template None s] is the
    list of the placeholders of [s], braces included, in order; the first
    argument holds the text of the placeholder being read. *)
Definition is_brace (c : ascii) : bool :=
  (Ascii.eqb c "{" || Ascii.eqb c "}")%bool.

Fixpoint brace_free (s : string) : bool :=
  match s with
  | EmptyString => true
  | String c rest => (negb (is_brace c) && brace_free rest)%bool
  end.

Fixpoint scan_template (inside : option string) (s : string) :
    option (list string) :=
  match s with
  | EmptyString => match inside with None => Some [] | Some _ => None end
  | String c rest =>
      match inside with
      | Some opened =>
          if Ascii.eqb c "}" then
            cons (opened +:+ "}") <$> scan_template None rest
          else if Ascii.eqb c "{" then None
          else scan_template (Some (opened +:+ String c EmptyString)) rest
      | None =>
          if Ascii.eqb c "{" then
            match rest with
            | String c' rest' =>
                if Ascii.eqb c' "{" then scan_template None rest'
                else scan_template (Some "{") rest
            | EmptyString => None
            end
          else if Ascii.eqb c "}" then
            match rest with
            | String c' rest' =>
                if Ascii.eqb c' "}" then scan_template None rest' else None
            | EmptyString => None
            end
          else scan_template None rest
      end
  end.

(** A string literal of Rust runs from its opening quote to the first
    double quote that no backslash escapes.  [string_literal_body s] reads
    [s] as what follows the opening quote: the text of the literal, and the
    text left after its closing quote. *)
Fixpoint string_literal_body (s : string) : option (string * string) :=
  match s with
  | EmptyString => None
  | String c rest =>
      if Ascii.eqb c dquote then Some (EmptyString, rest)
      else if Ascii.eqb c backslash then
        match rest with
        | EmptyString => None
        | String c' rest' =>
            prod_map (λ body, String c (String c' body)) id
              <$> string_literal_body rest'
        end
      else prod_map (String c) id <$> string_literal_body rest
  end.

Fixpoint quote_free (s : string) : bool :=
  match s with
  | EmptyString => true
  | String c rest =>
      (negb (Ascii.eqb c dquote || Ascii.eqb c backslash) && quote_free rest)%bool
  end.

(** The parts of an interpolated string in which no text holds a brace, a
    double quote or a backslash, and every specifier is one run of literal
    text: all of the specifier is then the text of that run. *)
Definition simple_part (part : ast.fpart) : bool :=
  match part with
  | ast.Text text => brace_free text && quote_free text
  | ast.FormattedValue _ _ None => true
  | ast.FormattedValue _ _ (Some [ast.Text text]) =>
      brace_free text && quote_free text
  | ast.FormattedValue _ _ (Some _) => false
  end.

(** *** Reading a literal as Rust does

    The literals without suffix: a decimal integer literal is a decimal
    digit followed by decimal digits and underscores; a floating-point
    literal is such a run of digits followed by a point, by a point and a
    second run, or by an exponent after either.  A minus sign in front of a
    literal is the negation operator.  What a literal denotes depends on the
    type it is read at: an integer literal outside the range of its type is
    refused by the compiler, and a floating-point literal denotes the
    nearest number of its type. *)

Inductive int_width := W8 | W16 | W32 | W64 | W128.

Definition width_bits (w : int_width) : Z :=
  match w with
  | W8 => 8
  | W16 => 16
  | W32 => 32
  | W64 => 64
  | W128 => 128
  end.

(** The numeric types a literal is read at: [i8] to [i128], [u8] to [u128],
    [f32] and [f64]. *)
Inductive rust_type :=
| Tint (signed : bool) (w : int_width)
| Tf32
| Tf64.

Definition in_range (signed : bool) (w : int_width) (z : Z) : bool :=
  if signed then
    (- 2 ^ (width_bits w - 1) <=? z) && (z <? 2 ^ (width_bits w - 1))
  else (0 <=? z) && (z <? 2 ^ width_bits w).

Definition digit_value (c : ascii) : option Z :=
  let n := Ascii.nat_of_ascii c in
  if ((48 <=? n)%nat && (n <=? 57)%nat)%bool then Some (Z.of_nat n - 48)
  else None.

(** Reads a run of decimal digits and underscores: the value of [acc]
    followed by the digits read, [cnt] plus their number, and the text left
    from the first character that is neither. *)
Fixpoint read_digits (acc cnt : Z) (s : string) : Z * Z * string :=
  match s with
  | EmptyString => (acc, cnt, EmptyString)
  | String c rest =>
      if Ascii.eqb c "_" then read_digits acc cnt rest
      else
        match digit_value c with
        | Some d => read_digits (10 * acc + d) (cnt + 1) rest
        | None => (acc, cnt, s)
        end
  end.

(** Runs of decimal digits and their value after the digits [acc]. *)
Fixpoint digits_only (s : string) : bool :=
  match s with
  | EmptyString => true
  | String c rest =>
      match digit_value c with
      | Some _ => digits_only rest
      | None => false
      end
  end.

Fixpoint digits_value (acc : Z) (s : string) : Z :=
  match s with
  | EmptyString => acc
  | String c rest =>
      match digit_value c with
      | Some d => digits_value (10 * acc + d) rest
      | None => acc
      end
  end.

(** A decimal literal at the head of the text: its value, the number of its
    digits and the text left. *)
Definition read_dec_literal (s : string) : option (Z * Z * string) :=
  match s with
  | EmptyString => None
  | String c rest =>
      match digit_value c with
      | Some d => Some (read_digits d 1 rest)
      | None => None
      end
  end.

(** The text without the minus sign in front of it, if it has one. *)
Definition split_sign (s : string) : bool * string :=
  match s with
  | EmptyString => (false, s)
  | String c rest => if Ascii.eqb c "-" then (true, rest) else (false, s)
  end.

(** The value of a decimal integer literal, or of one under a negation, at
    an integer type; [None] when the text is no such literal or the value is
    out of the range of the type. *)
Definition read_int (signed : bool) (w : int_width) (s : string) : option Z :=
  let '(negative, body) := split_sign s in
  match read_dec_literal body with
  | Some (v, _, EmptyString) =>
      let z := if negative then - v else v in
      if (negb negative || signed) && in_range signed w z then Some z
      else None
  | _ => None
  end.

(** The exponent of a floating-point literal: [e] or [E], a sign or none,
    digits and underscores with one digit at least, up to the end. *)
Definition read_exponent (s : string) : option Z :=
  match s with
  | EmptyString => None
  | String c rest =>
      if Ascii.eqb c "e" || Ascii.eqb c "E" then
        let '(negative, body) :=
          match rest with
          | EmptyString => (false, rest)
          | String c' rest' =>
              if Ascii.eqb c' "+" then (false, rest')
              else if Ascii.eqb c' "-" then (true, rest')
              else (false, rest)
          end in
        match read_digits 0 0 body with
        | (x, cnt, EmptyString) =>
            if 0 <? cnt then Some (if negative then - x else x) else None
        | _ => None
        end
      else None
  end.

(** The decimal a floating-point literal stands for, as the [d] and [k] of
    [d * 10 ^ k]; [None] when the text is no floating-point literal (an
    integer literal is none). *)
Definition read_float_decimal (s : string) : option (Z * Z) :=
  match read_dec_literal s with
  | None => None
  | Some (i, _, rest) =>
      match rest with
      | EmptyString => None
      | String c rest' =>
          if Ascii.eqb c "." then
            match rest' with
            | EmptyString => Some (i, 0)
            | String c' _ =>
                match digit_value c' with
                | None => None
                | Some _ =>
                    let '(d, f, rest'') := read_digits i 0 rest' in
                    match rest'' with
                    | EmptyString => Some (d, - f)
                    | _ => x ← read_exponent rest''; Some (d, x - f)
                    end
                end
            end
          else x ← read_exponent rest; Some (i, x)
      end
  end.

(** The [f64] a floating-point literal, or one under a negation, denotes:
    the binary64 nearest to its decimal, ties to even; [None] when the text
    is no such literal or the decimal is beyond the finite numbers. *)
Definition read_f64 (s : string) : option ast.pyfloat :=
  let '(negative, body) := split_sign s in
  match read_float_decimal body with
  | None => None
  | Some (d, k) =>
      match round_decimal d k with
      | None => None
      | Some (m, e) => Some (ast.Ffinite negative m e)
      end
  end.

(** The [f32] such a text denotes: the binary32 nearest to its decimal,
    given as the float of the same value. *)
Definition read_f32 (s : string) : option ast.pyfloat :=
  let '(negative, body) := split_sign s in
  match read_float_decimal body with
  | None => None
  | Some (d, k) =>
      let '(num, den) := decimal_fraction d k in
      match round_binary32 num den with
      | None => None
      | Some (m, e) =>
          let '(m', e') := widen m e in Some (ast.Ffinite negative m' e')
      end
  end.

(** The number a text denotes as a literal of the type [ty]. *)
Definition read_literal (ty : rust_type) (s : string) : option ast.number :=
  match ty with
  | Tint signed w => ast.NInt <$> read_int signed w s
  | Tf32 => ast.NFloat <$> read_f32 s
  | Tf64 => ast.NFloat <$> read_f64 s
  end.

(** The numbers a type holds: the integers of its range for an integer
    type, the finite floats for [f64], those of them that are binary32
    numbers for [f32]. *)
Definition representable (ty : rust_type) (n : ast.number) : bool :=
  match ty, n with
  | Tint signed w, ast.NInt z => in_range signed w z
  | Tf32, ast.NFloat (ast.Ffinite _ m e) =>
      binary64 m e && bool_decide (is_Some (narrow m e))
  | Tf64, ast.NFloat (ast.Ffinite _ m e) => binary64 m e
  | _, _ => false
  end.

(** *** Notions for the properties of the whole visitor *)

(** Undoing [visit_Str]'s escape: a backslash that stands before a double
    quote is dropped. *)
Fixpoint unescape_quotes (s : string) : string :=
  match s with
  | EmptyString => EmptyString
  | String c rest =>
      if Ascii.eqb c backslash then
        match rest with
        | EmptyString => String c EmptyString
        | String d rest' =>
            if Ascii.eqb d dquote then String dquote (unescape_quotes rest')
            else String c (unescape_quotes rest)
        end
      else String c (unescape_quotes rest)
  end.

(** Every double quote of [s] comes right after a backslash; [after_backslash]
    tells whether the character before [s] is one. *)
Fixpoint quotes_escaped (after_backslash : bool) (s : string) : bool :=
  match s with
  | EmptyString => true
  | String c rest =>
      if Ascii.eqb c dquote then after_backslash && quotes_escaped false rest
      else quotes_escaped (Ascii.eqb c backslash) rest
  end.

(** The children a method calls [self.visit] on: [visit_While] leaves the
    [orelse] of the loop alone, [visit_Compare] looks at the first
    comparator only. *)
Definition visited_children (n : ast.node) : list ast.node :=
  match n with
  | ast.JoinedStr values => inner_expressions values
  | ast.Return (Some value) => [value]
  | ast.If test body orelse => test :: body ++ orelse
  | ast.While test body _ => test :: body
  | ast.Compare lhs _ comparators => lhs :: take 1 comparators
  | ast.BoolOp _ values => values
  | ast.BinOp lhs _ rhs => [lhs; rhs]
  | ast.UnaryOp _ operand => [operand]
  | ast.AugAssign target _ value => [target; value]
  | ast.Other _ children => children
  | _ => []
  end.

(** [reaches n d]: [d] is [n] or a node the visit of [n] comes to. *)
Inductive reaches : ast.node -> ast.node -> Prop :=
| reaches_here (n : ast.node) : reaches n n
| reaches_child (n c d : ast.node) :
    c ∈ visited_children n -> reaches c d -> reaches n d.

(** A [format_spec] that [visit_FormatSpec] accepts: it opens with a run of
    literal text. *)
Definition spec_opens_with_text (format_spec : option (list ast.fpart)) : bool :=
  match format_spec with
  | None => true
  | Some (ast.Text _ :: _) => true
  | Some _ => false
  end.

Definition part_opens_with_text (part : ast.fpart) : bool :=
  match part with
  | ast.Text _ => true
  | ast.FormattedValue _ _ format_spec => spec_opens_with_text format_spec
  end.

(** The trees made of the nodes [CLikeTranspiler] has a method for (or a
    symbol, for [Pass]), with constants that have a text (a boolean, a
    string, a number whose conversion is not refused), comparisons that have
    an operator and a comparator, and specifiers that open with text. *)
Fixpoint covered (n : ast.node) : bool :=
  match n with
  | ast.Name _ _ => true
  | ast.Constant (ast.CNum (ast.NInt n)) => Z.abs n <? int_max_str
  | ast.Constant (ast.CBool _ | ast.CNum _ | ast.CStr _) => true
  | ast.Constant _ => false
  | ast.JoinedStr values =>
      (fix parts (l : list ast.fpart) : bool :=
         match l with
         | [] => true
         | ast.Text _ :: rest => parts rest
         | ast.FormattedValue value _ format_spec :: rest =>
             covered value && spec_opens_with_text format_spec && parts rest
         end) values
  | ast.Return None => true
  | ast.Return (Some value) => covered value
  | ast.If test body orelse =>
      covered test && forallb covered body && forallb covered orelse
  | ast.Continue | ast.Break | ast.Pass => true
  | ast.While test body _ => covered test && forallb covered body
  | ast.Compare lhs (_ :: _) (c :: _) => covered lhs && covered c
  | ast.Compare _ _ _ => false
  | ast.BoolOp _ values => forallb covered values
  | ast.BinOp lhs _ rhs => covered lhs && covered rhs
  | ast.UnaryOp _ operand => covered operand
  | ast.AugAssign target _ value => covered target && covered value
  | ast.Other _ _ => false
  end.

(** Two parts of an interpolated string that differ at most by the
    conversion flag and by what follows the first run of the specifier. *)
Inductive same_rendering : ast.fpart -> ast.fpart -> Prop :=
| same_text (text : string) :
    same_rendering (ast.Text text) (ast.Text text)
| same_bare (value : ast.node) (conversion conversion' : Z) :
    same_rendering (ast.FormattedValue value conversion None)
      (ast.FormattedValue value conversion' None)
| same_empty_spec (value : ast.node) (conversion conversion' : Z) :
    same_rendering (ast.FormattedValue value conversion (Some []))
      (ast.FormattedValue value conversion' (Some []))
| same_first_run (value : ast.node) (conversion conversion' : Z)
    (first : ast.fpart) (more more' : list ast.fpart) :
    same_rendering
      (ast.FormattedValue value conversion (Some (first :: more)))
      (ast.FormattedValue value conversion' (Some (first :: more'))).

(** * Properties *)

(** ** Dispatch *)

(** None of the classes with a method of their own is a key of [symbols],
    so [visit] hands each of them to its method. *)
Lemma visit_BinOp_eq l op r :
  visit (ast.BinOp l op r) = visit_BinOp visit l op r.
Proof. reflexivity. Qed.

Lemma visit_UnaryOp_eq op e :
  visit (ast.UnaryOp op e) = visit_UnaryOp visit op e.
Proof. reflexivity. Qed.

Lemma visit_Compare_eq l ops cs :
  visit (ast.Compare l ops cs) = visit_Compare visit l ops cs.
Proof. reflexivity. Qed.

Lemma visit_If_eq t b o :
  visit (ast.If t b o) = visit_If visit t b o.
Proof. reflexivity. Qed.

Lemma visit_JoinedStr_eq values :
  visit (ast.JoinedStr values) = visit_JoinedStr visit values.
Proof. reflexivity. Qed.

Lemma visit_Other_eq name children :
  visit (ast.Other name children) = generic_visit visit children.
Proof. reflexivity. Qed.

Lemma bind_Ok {A B : Type} (a : A) (k : A -> result B) :
  (Ok a ≫= k) = k a.
Proof. reflexivity. Qed.

(** An operator that is a key of [symbols] is rendered as its symbol, any
    other as [None]. *)
Lemma visit_symbol_Some t tok :
  symbols t = Some tok -> visit_symbol t = Ok (VStr tok).
Proof. intros H. unfold visit_symbol, c_symbol. by rewrite H. Qed.

Lemma visit_symbol_None t :
  symbols t = None -> visit_symbol t = Ok VNone.
Proof. intros H. unfold visit_symbol. by rewrite H. Qed.

(** ** Binary operations *)

Section BinOp.

(** The methods only depend on what [self.visit] answers for the children,
    so the facts below hold for any visitor, a subclass included. *)
Variable self_visit : ast.node -> result pyval.
Variables (l r : ast.node) (vl vr : pyval).
Hypothesis Hl : self_visit l = Ok vl.
Hypothesis Hr : self_visit r = Ok vr.

Lemma visit_BinOp_Pow :
  visit_BinOp self_visit l ast.Pow r
  = Ok (VStr (format_arg vl +:+ ".pow(" +:+ format_arg vr +:+ ")")).
Proof. unfold visit_BinOp. by rewrite Hl, Hr. Qed.

Lemma visit_BinOp_tight op tok :
  op = ast.Mult ∨ op = ast.Div ->
  symbols (ast.type_operator op) = Some tok ->
  visit_BinOp self_visit l op r
  = Ok (VStr ("(" +:+ format_arg vl +:+ tok +:+ format_arg vr +:+ ")")).
Proof.
  intros [-> | ->] Htok; unfold visit_BinOp;
    rewrite Hl, Hr, (visit_symbol_Some _ _ Htok); reflexivity.
Qed.

Lemma visit_BinOp_spaced op vo :
  op ≠ ast.Pow -> op ≠ ast.Mult -> op ≠ ast.Div ->
  visit_symbol (ast.type_operator op) = Ok vo ->
  visit_BinOp self_visit l op r
  = Ok (VStr ("(" +:+ format_arg vl +:+ " " +:+ format_arg vo +:+ " "
               +:+ format_arg vr +:+ ")")).
Proof.
  intros HPow HMult HDiv Hvo.
  destruct op; try done; unfold visit_BinOp; rewrite Hl, Hr, Hvo; reflexivity.
Qed.

End BinOp.

Lemma append_cons (x : ascii) (a b : string) :
  String x a +:+ b = String x (a +:+ b).
Proof. reflexivity. Qed.

Lemma append_assoc (a b c : string) : (a +:+ b) +:+ c = a +:+ (b +:+ c).
Proof.
  induction a as [|x a IH]; [done |]. rewrite !append_cons. by f_equal.
Qed.

Lemma append_empty_r (a : string) : a +:+ EmptyString = a.
Proof.
  induction a as [|x a IH]; [done |]. rewrite append_cons. by f_equal.
Qed.

(** C1, as amended.  A binary operation other than an exponentiation, whose
    operands translate, is rendered between parentheses.  Inside them, [*]
    and true division [/] stand with no whitespace around the operator
    token; addition, subtraction, modulo, the shifts and the bitwise
    operators have one space on each side of it. *)
Theorem BinOp_parentheses_and_spacing (l : ast.node) (op : ast.operator)
    (r : ast.node) (vl vr : pyval) :
  op ≠ ast.Pow ->
  visit l = Ok vl ->
  visit r = Ok vr ->
  ∃ body,
    visit (ast.BinOp l op r) = Ok (VStr ("(" +:+ body +:+ ")")) ∧
    ∀ tok, symbols (ast.type_operator op) = Some tok ->
      (op = ast.Mult ∨ op = ast.Div ->
         body = format_arg vl +:+ tok +:+ format_arg vr) ∧
      (op ≠ ast.Mult -> op ≠ ast.Div -> op ≠ ast.FloorDiv ->
         body = format_arg vl +:+ " " +:+ tok +:+ " " +:+ format_arg vr).
Proof.
  intros HPow Hl Hr. rewrite visit_BinOp_eq.
  destruct (decide (op = ast.Mult ∨ op = ast.Div)) as [Htight | Hloose].
  - assert (∃ tok, symbols (ast.type_operator op) = Some tok) as [tok Htok]
      by (destruct Htight as [-> | ->]; eauto).
    exists (format_arg vl +:+ tok +:+ format_arg vr). split.
    + rewrite (visit_BinOp_tight visit l r vl vr Hl Hr op tok Htight Htok).
      by rewrite !append_assoc.
    + intros tok' Htok'. split; [congruence |].
      intros HM HD. destruct Htight; contradiction.
  - assert (op ≠ ast.Mult ∧ op ≠ ast.Div) as [HM HD] by tauto.
    assert (∃ vo, visit_symbol (ast.type_operator op) = Ok vo) as [vo Hvo]
      by (unfold visit_symbol, c_symbol;
          destruct (symbols (ast.type_operator op)); eauto).
    exists (format_arg vl +:+ " " +:+ format_arg vo +:+ " " +:+ format_arg vr).
    split.
    + rewrite (visit_BinOp_spaced visit l r vl vr Hl Hr op vo HPow HM HD Hvo).
      by rewrite !append_assoc.
    + intros tok Htok. split; [tauto |]. intros _ _ _.
      rewrite (visit_symbol_Some _ _ Htok) in Hvo. by inversion Hvo.
Qed.

Lemma BinOp_parentheses_and_spacing_witness :
  ast.Sub ≠ ast.Pow ∧
  visit (ast.Name "a" false) = Ok (VStr "a") ∧
  visit (ast.Name "b" false) = Ok (VStr "b") ∧
  ∃ body,
    visit (ast.BinOp (ast.Name "a" false) ast.Sub (ast.Name "b" false))
    = Ok (VStr ("(" +:+ body +:+ ")")) ∧
    ∀ tok, symbols (ast.type_operator ast.Sub) = Some tok ->
      (ast.Sub = ast.Mult ∨ ast.Sub = ast.Div -> body = "a" +:+ tok +:+ "b") ∧
      (ast.Sub ≠ ast.Mult -> ast.Sub ≠ ast.Div -> ast.Sub ≠ ast.FloorDiv ->
         body = "a" +:+ " " +:+ tok +:+ " " +:+ "b").
Proof.
  split; [discriminate |].
  split; [reflexivity |].
  split; [reflexivity |].
  apply (BinOp_parentheses_and_spacing
           (ast.Name "a" false) ast.Sub (ast.Name "b" false)
           (VStr "a") (VStr "b")); [discriminate | reflexivity | reflexivity].
Defined.

(** C1 as stated fails on an exponentiation: [a ** b] becomes [a.pow(b)],
    which no parenthesis opens. *)
Lemma BinOp_Pow_not_parenthesised :
  visit (ast.BinOp (ast.Name "a" false) ast.Pow (ast.Name "b" false))
  = Ok (VStr "a.pow(b)") ∧
  ¬ wrapped_in_parens "a.pow(b)".
Proof.
  split; [reflexivity |]. intros [body Hbody]. discriminate Hbody.
Qed.

(** C5.  An exponentiation [a ** b] is rendered as the translation of [a],
    then [.pow(], the translation of [b] and [)]: a method call, with no
    operator token between the operands. *)
Theorem BinOp_Pow_method_call (a b : ast.node) (va vb : pyval) :
  visit a = Ok va ->
  visit b = Ok vb ->
  visit (ast.BinOp a ast.Pow b)
  = Ok (VStr (format_arg va +:+ ".pow(" +:+ format_arg vb +:+ ")")).
Proof.
  intros Ha Hb. rewrite visit_BinOp_eq. by apply visit_BinOp_Pow.
Qed.

Lemma BinOp_Pow_method_call_witness :
  visit (ast.Name "x" false) = Ok (VStr "x") ∧
  visit (ast.Constant (ast.CNum (ast.NInt 2))) = Ok (VStr "2") ∧
  visit (ast.BinOp (ast.Name "x" false) ast.Pow
           (ast.Constant (ast.CNum (ast.NInt 2))))
  = Ok (VStr "x.pow(2)").
Proof.
  split; [reflexivity |].
  split; [reflexivity |].
  apply (BinOp_Pow_method_call (ast.Name "x" false)
           (ast.Constant (ast.CNum (ast.NInt 2))) (VStr "x") (VStr "2"));
    reflexivity.
Defined.

(** ** Comparisons *)

(** C6.  A membership test [x in y] is rendered as the translation of [y],
    then [.any(], the translation of [x] and [)]: a method call on the
    container, not an infix operator. *)
Theorem Compare_In_method_call (x y : ast.node) (vx vy : pyval) :
  visit x = Ok vx ->
  visit y = Ok vy ->
  visit (ast.Compare x [ast.In] [y])
  = Ok (VStr (format_arg vy +:+ ".any(" +:+ format_arg vx +:+ ")")).
Proof.
  intros Hx Hy. rewrite visit_Compare_eq. unfold visit_Compare.
  by rewrite Hx, Hy.
Qed.

Lemma Compare_In_method_call_witness :
  visit (ast.Name "x" false) = Ok (VStr "x") ∧
  visit (ast.Name "ys" false) = Ok (VStr "ys") ∧
  visit (ast.Compare (ast.Name "x" false) [ast.In] [ast.Name "ys" false])
  = Ok (VStr "ys.any(x)").
Proof.
  split; [reflexivity |].
  split; [reflexivity |].
  apply (Compare_In_method_call (ast.Name "x" false) (ast.Name "ys" false)
           (VStr "x") (VStr "ys")); reflexivity.
Defined.

(** C7.  The translation of a comparison depends on its left operand, its
    first operator and its first comparator only: the operator and
    comparator pairs that follow in a chain leave it unchanged. *)
Theorem Compare_first_pair_only (l : ast.node) (o : ast.cmpop)
    (c : ast.node) (os os' : list ast.cmpop) (cs cs' : list ast.node) :
  visit (ast.Compare l (o :: os) (c :: cs))
  = visit (ast.Compare l (o :: os') (c :: cs')).
Proof. rewrite !visit_Compare_eq. reflexivity. Qed.

(** An identity test is rendered as the equality test on the same operands,
    and its negation as the inequality test. *)
Lemma Compare_Is_as_Eq (l : ast.node) (os : list ast.cmpop)
    (cs : list ast.node) :
  visit (ast.Compare l (ast.Is :: os) cs)
  = visit (ast.Compare l (ast.Eq :: os) cs).
Proof. rewrite !visit_Compare_eq. reflexivity. Qed.

Lemma Compare_IsNot_as_NotEq (l : ast.node) (os : list ast.cmpop)
    (cs : list ast.node) :
  visit (ast.Compare l (ast.IsNot :: os) cs)
  = visit (ast.Compare l (ast.NotEq :: os) cs).
Proof. rewrite !visit_Compare_eq. reflexivity. Qed.

(** ** Floor division against true division *)

Lemma length_append (a b : string) :
  String.length (a +:+ b) = (String.length a + String.length b)%nat.
Proof.
  induction a as [|x a IH]; [done |]. rewrite append_cons. simpl. by rewrite IH.
Qed.

(** C10.  [symbols] gives floor division and true division the same token,
    yet the two texts differ: [visit_BinOp] drops the spaces around the
    token for [Mult] and [Div] only, so [l // r] keeps them and [l / r] does
    not. *)
Theorem FloorDiv_not_rendered_as_Div (l r : ast.node) (vl vr : pyval) :
  visit l = Ok vl ->
  visit r = Ok vr ->
  symbols (ast.type_operator ast.FloorDiv) = symbols (ast.type_operator ast.Div) ∧
  visit (ast.BinOp l ast.FloorDiv r)
  = Ok (VStr ("(" +:+ format_arg vl +:+ " / " +:+ format_arg vr +:+ ")")) ∧
  visit (ast.BinOp l ast.Div r)
  = Ok (VStr ("(" +:+ format_arg vl +:+ "/" +:+ format_arg vr +:+ ")")) ∧
  visit (ast.BinOp l ast.FloorDiv r) ≠ visit (ast.BinOp l ast.Div r).
Proof.
  intros Hl Hr.
  assert (visit (ast.BinOp l ast.FloorDiv r)
          = Ok (VStr ("(" +:+ format_arg vl +:+ " / " +:+ format_arg vr
                       +:+ ")"))) as HF.
  { rewrite visit_BinOp_eq.
    by rewrite (visit_BinOp_spaced visit l r vl vr Hl Hr ast.FloorDiv
                  (VStr "/")). }
  assert (visit (ast.BinOp l ast.Div r)
          = Ok (VStr ("(" +:+ format_arg vl +:+ "/" +:+ format_arg vr
                       +:+ ")"))) as HD.
  { rewrite visit_BinOp_eq.
    by rewrite (visit_BinOp_tight visit l r vl vr Hl Hr ast.Div "/");
      [| right |]. }
  split; [reflexivity |]. split; [exact HF |]. split; [exact HD |].
  rewrite HF, HD. intros Heq. inversion Heq as [Hs].
  apply (f_equal String.length) in Hs.
  rewrite !length_append in Hs. simpl in Hs. lia.
Qed.

Lemma FloorDiv_not_rendered_as_Div_witness :
  visit (ast.Name "l" false) = Ok (VStr "l") ∧
  visit (ast.Name "r" false) = Ok (VStr "r") ∧
  visit (ast.BinOp (ast.Name "l" false) ast.FloorDiv (ast.Name "r" false))
  = Ok (VStr "(l / r)") ∧
  visit (ast.BinOp (ast.Name "l" false) ast.Div (ast.Name "r" false))
  = Ok (VStr "(l/r)").
Proof.
  split; [reflexivity |].
  split; [reflexivity |].
  pose proof (FloorDiv_not_rendered_as_Div
                (ast.Name "l" false) (ast.Name "r" false)
                (VStr "l") (VStr "r") eq_refl eq_refl) as (_ & HF & HD & _).
  split; [exact HF | exact HD].
Defined.

(** ** Kinds without a rule, operators without a symbol *)

(** C2 as stated fails: a matrix product, whose operator is not a key of
    [symbols], and a call, whose class has no method, both go through
    without any exception. *)
Lemma unmapped_operator_raises_nothing :
  visit (ast.BinOp (ast.Name "a" false) ast.MatMult (ast.Name "b" false))
  = Ok (VStr "(a None b)") ∧
  visit (ast.Other "Call" [ast.Name "f" false]) = Ok VNone ∧
  ¬ (∃ e, visit (ast.BinOp (ast.Name "a" false) ast.MatMult
                   (ast.Name "b" false)) = Raise e).
Proof.
  split; [reflexivity |]. split; [reflexivity |].
  intros [e He]. discriminate He.
Qed.

(** ** Identifiers *)

Lemma visit_Name_eq id is_annotation :
  visit (ast.Name id is_annotation) = visit_Name id is_annotation.
Proof. reflexivity. Qed.

Lemma elem_of_builtin_constants (id : string) :
  id ∈ builtin_constants ↔ id = "True" ∨ id = "False".
Proof.
  unfold builtin_constants.
  rewrite elem_of_list_to_set, !elem_of_cons, elem_of_nil. tauto.
Qed.

(** C3.  An identifier is translated by the first rule that applies, in
    this order: [True] and [False] become the lower-case literals [true]
    and [false]; a reserved word gets the suffix [_] appended, once; in
    annotation position a key of [type_map] becomes the mapped type; any
    other identifier is returned as it is. *)
Theorem visit_Name_priority (id : string) (is_annotation : bool) :
  (id ∈ builtin_constants ->
     visit (ast.Name id is_annotation) = Ok (VStr (lower id)) ∧
     ((id = "True" ∧ lower id = "true") ∨ (id = "False" ∧ lower id = "false"))) ∧
  (id ∉ builtin_constants -> id ∈ rust_keywords ->
     visit (ast.Name id is_annotation) = Ok (VStr (id +:+ "_"))) ∧
  (id ∉ builtin_constants -> id ∉ rust_keywords ->
     is_annotation = true ->
     ∀ t, type_map !! id = Some t ->
     visit (ast.Name id is_annotation) = Ok (VStr t)) ∧
  (id ∉ builtin_constants -> id ∉ rust_keywords ->
     is_annotation = false ∨ type_map !! id = None ->
     visit (ast.Name id is_annotation) = Ok (VStr id)).
Proof.
  rewrite visit_Name_eq. unfold visit_Name.
  split; [| split; [| split]].
  - intros Hb. split; [by rewrite decide_True |].
    apply elem_of_builtin_constants in Hb as [-> | ->]; [by left | by right].
  - intros Hb Hk. by rewrite decide_False, decide_True.
  - intros Hb Hk -> t Ht. by rewrite decide_False, decide_False, Ht.
  - intros Hb Hk Hplain. rewrite decide_False, decide_False by done.
    destruct Hplain as [-> | ->]; [done | by destruct is_annotation].
Qed.

Lemma visit_Name_priority_witness :
  visit (ast.Name "True" false) = Ok (VStr "true") ∧
  visit (ast.Name "type" false) = Ok (VStr "type_") ∧
  visit (ast.Name "int" true) = Ok (VStr "i32") ∧
  visit (ast.Name "int" false) = Ok (VStr "int").
Proof.
  split.
  { apply (proj1 (visit_Name_priority "True" false)). by vm_compute. }
  split.
  { apply (proj1 (proj2 (visit_Name_priority "type" false)));
      by vm_compute. }
  split.
  { apply (proj1 (proj2 (proj2 (visit_Name_priority "int" true))));
      by vm_compute. }
  apply (proj2 (proj2 (proj2 (visit_Name_priority "int" false))));
    [by vm_compute | by vm_compute | by left].
Defined.

(** ** Lists of children *)

Lemma mapM_cons {A B : Type} (f : A -> result B) (x : A) (l : list A) :
  mapM f (x :: l) = (y ← f x; ys ← mapM f l; Ok (y :: ys)).
Proof. unfold mbind, result_bind. simpl. by destruct (f x). Qed.

Lemma mapM_Forall2 {A B C : Type} (f : A -> result B) (g : C -> B)
    (l : list A) (k : list C) :
  Forall2 (λ x y, f x = Ok (g y)) l k -> mapM f l = Ok (g <$> k).
Proof.
  induction 1 as [|x y l k Hxy _ IH]; [done |].
  by rewrite mapM_cons, Hxy, IH.
Qed.

Lemma str_join_strings (sep : string) (l : list string) :
  str_join sep (VStr <$> l) = Ok (join sep l).
Proof.
  unfold str_join.
  assert (mapM join_item (VStr <$> l) = Ok l) as ->; [| done].
  induction l as [|x l IH]; [done |].
  rewrite fmap_cons, mapM_cons, IH. reflexivity.
Qed.

(** ** Conditionals *)

(** [join] is the concatenation with a separator of the standard library. *)
Lemma join_concat (sep : string) (items : list string) :
  join sep items = String.concat sep items.
Proof.
  induction items as [|x [|y items] IH]; [done | done |].
  change (join sep (x :: y :: items)) with (x +:+ sep +:+ join sep (y :: items)).
  by rewrite IH.
Qed.

(** C8.  A conditional whose test and statements translate is rendered as
    the line [if <test> {], the translations of the statements of the body,
    one per item, and a closing [}], joined by line feeds; the line
    [} else {] and the translations of the statements of the else branch
    stand before that closing [}] exactly when the else branch is not
    empty. *)
Theorem visit_If_layout (test : ast.node) (body orelse : list ast.node)
    (vt : pyval) (bs es : list string) :
  visit test = Ok vt ->
  Forall2 (λ child text, visit child = Ok (VStr text)) body bs ->
  Forall2 (λ child text, visit child = Ok (VStr text)) orelse es ->
  visit (ast.If test body orelse)
  = Ok (VStr (String.concat (String "010" EmptyString)
                (("if " +:+ format_arg vt +:+ " {") :: bs ++
                 match orelse with
                 | [] => ["}"]
                 | _ :: _ => "} else {" :: es ++ ["}"]
                 end))).
Proof.
  intros Ht Hb He. rewrite <- join_concat.
  rewrite visit_If_eq. unfold visit_If.
  rewrite Ht, (mapM_Forall2 _ _ _ _ Hb), (mapM_Forall2 _ _ _ _ He).
  rewrite !bind_Ok.
  destruct He as [|child text orelse es Hchild He].
  - rewrite fmap_nil.
    change [VStr "}"] with (VStr <$> ["}"]).
    change [VStr ("if " +:+ format_arg vt +:+ " {")]
      with (VStr <$> ["if " +:+ format_arg vt +:+ " {"]).
    rewrite <- !fmap_app, str_join_strings. reflexivity.
  - rewrite fmap_cons.
    change [VStr "}"] with (VStr <$> ["}"]).
    change [VStr "} else {"] with (VStr <$> ["} else {"]).
    change [VStr ("if " +:+ format_arg vt +:+ " {")]
      with (VStr <$> ["if " +:+ format_arg vt +:+ " {"]).
    rewrite <- (fmap_cons VStr text es).
    rewrite <- !fmap_app, str_join_strings, bind_Ok.
    do 3 f_equal. by rewrite <- !app_assoc.
Qed.

Lemma visit_If_layout_witness :
  visit (ast.Compare (ast.Name "a" false) [ast.Eq]
           [ast.Constant (ast.CNum (ast.NInt 1))]) = Ok (VStr "a == 1") ∧
  visit (ast.If
           (ast.Compare (ast.Name "a" false) [ast.Eq]
              [ast.Constant (ast.CNum (ast.NInt 1))])
           [ast.Return (Some (ast.Name "a" false))]
           [ast.Return (Some (ast.Constant (ast.CNum (ast.NInt 0))))])
  = Ok (VStr ("if a == 1 {" +:+ String "010" ("return a;" +:+
              String "010" ("} else {" +:+ String "010" ("return 0;" +:+
              String "010" "}"))))) ∧
  visit (ast.If
           (ast.Compare (ast.Name "a" false) [ast.Eq]
              [ast.Constant (ast.CNum (ast.NInt 1))])
           [ast.Return (Some (ast.Name "a" false))] [])
  = Ok (VStr ("if a == 1 {" +:+ String "010" ("return a;" +:+
              String "010" "}"))).
Proof.
  split; [reflexivity |]. split.
  - refine (visit_If_layout
              (ast.Compare (ast.Name "a" false) [ast.Eq]
                 [ast.Constant (ast.CNum (ast.NInt 1))])
              [ast.Return (Some (ast.Name "a" false))]
              [ast.Return (Some (ast.Constant (ast.CNum (ast.NInt 0))))]
              (VStr "a == 1") ["return a;"] ["return 0;"] eq_refl _ _);
      repeat constructor.
  - refine (visit_If_layout
              (ast.Compare (ast.Name "a" false) [ast.Eq]
                 [ast.Constant (ast.CNum (ast.NInt 1))])
              [ast.Return (Some (ast.Name "a" false))] []
              (VStr "a == 1") ["return a;"] [] eq_refl _ _);
      repeat constructor.
Defined.

(** ** Interpolated strings *)

(** The comprehension collects the translations of the inner expressions,
    in order. *)
Lemma formatted_values_arguments (segs : list segment)
    (values : list ast.fpart) :
  Forall2 describes segs values ->
  formatted_values visit values = Ok (VStr <$> arguments segs).
Proof.
  induction 1 as [|s part segs values Hs _ IH]; [done |].
  destruct Hs as [text | inner tr conv Hinner | inner tr conv text more Hinner];
    simpl; unfold visit_FormattedValue.
  - exact IH.
  - by rewrite Hinner, IH.
  - by rewrite Hinner, IH.
Qed.

(** The loop appends the pieces of the template to [response], in order. *)
Lemma foldM_add_part_template (segs : list segment)
    (values : list ast.fpart) :
  Forall2 describes segs values ->
  ∀ response,
    foldM add_part values response
    = Ok (response +:+ concat_str (template_piece <$> segs)).
Proof.
  induction 1 as [|s part segs values Hs _ IH]; intros response.
  - simpl. by rewrite append_empty_r.
  - destruct Hs as [text | inner tr conv Hinner | inner tr conv text more Hinner];
      simpl; rewrite IH; by rewrite append_assoc.
Qed.

Lemma arguments_inner_expressions (segs : list segment)
    (values : list ast.fpart) :
  Forall2 describes segs values ->
  Forall2 (λ inner translation, visit inner = Ok (VStr translation))
    (inner_expressions values) (arguments segs).
Proof.
  induction 1 as [|s part segs values Hs _ IH]; [constructor |].
  destruct Hs; simpl; [exact IH | by constructor | by constructor].
Qed.

Lemma placeholders_length (segs : list segment) (values : list ast.fpart) :
  Forall2 describes segs values ->
  length (placeholders segs) = expression_segments values.
Proof.
  unfold expression_segments.
  induction 1 as [|s part segs values Hs _ IH]; [done |].
  destruct Hs; simpl; by rewrite ?IH.
Qed.

(** A placeholder under construction is closed by the first brace. *)
Lemma scan_template_inside (text rest opened : string) :
  brace_free text = true ->
  scan_template (Some opened) (text +:+ "}" +:+ rest)
  = cons (opened +:+ text +:+ "}") <$> scan_template None rest.
Proof.
  revert opened. induction text as [|c text IH]; intros opened Hfree.
  - reflexivity.
  - simpl in Hfree. apply andb_prop in Hfree as [Hc Hfree].
    unfold is_brace in Hc. apply negb_true_iff, orb_false_elim in Hc as [Ho Hcl].
    rewrite append_cons. simpl. rewrite Ho, Hcl, (IH _ Hfree).
    by rewrite (append_assoc opened).
Qed.

(** Text without braces holds no placeholder. *)
Lemma scan_template_literal (text rest : string) :
  brace_free text = true ->
  scan_template None (text +:+ rest) = scan_template None rest.
Proof.
  induction text as [|c text IH]; intros Hfree; [done |].
  simpl in Hfree. apply andb_prop in Hfree as [Hc Hfree].
  unfold is_brace in Hc. apply negb_true_iff, orb_false_elim in Hc as [Ho Hcl].
  rewrite append_cons. simpl. by rewrite Ho, Hcl, (IH Hfree).
Qed.

Lemma scan_template_placeholder (specifier : option string) (rest : string) :
  from_option brace_free true specifier = true ->
  scan_template None (placeholder specifier +:+ rest)
  = cons (placeholder specifier) <$> scan_template None rest.
Proof.
  destruct specifier as [text|]; intros Hfree; [| reflexivity].
  unfold placeholder. rewrite !append_assoc.
  transitivity (scan_template (Some "{:#") (text +:+ "}" +:+ rest));
    [reflexivity |].
  by rewrite (scan_template_inside _ _ _ Hfree).
Qed.

Lemma concat_cons (piece : string) (pieces : list string) :
  String.concat EmptyString (piece :: pieces)
  = piece +:+ String.concat EmptyString pieces.
Proof. destruct pieces; [by rewrite append_empty_r | done]. Qed.

(** The placeholders of the template of simple parts are those of its
    expression segments. *)
Lemma scan_template_segments (segs : list segment) (values : list ast.fpart) :
  Forall2 describes segs values ->
  forallb simple_part values = true ->
  scan_template None (String.concat EmptyString (template_piece <$> segs))
  = Some (placeholders segs).
Proof.
  induction 1 as [|s part segs values Hs _ IH]; [done |].
  intros Hsimple. simpl in Hsimple. apply andb_prop in Hsimple as [Hpart Hrest].
  specialize (IH Hrest). rewrite fmap_cons, concat_cons.
  destruct Hs as [text | inner tr conv Hinner | inner tr conv text more Hinner];
    simpl in Hpart.
  - apply andb_prop in Hpart as [Hpart _].
    change (template_piece (Literal text)) with text.
    by rewrite (scan_template_literal _ _ Hpart).
  - change (template_piece (Expression inner tr None)) with (placeholder None).
    by rewrite (scan_template_placeholder None), IH.
  - destruct more; [| done]. apply andb_prop in Hpart as [Hpart _].
    change (template_piece (Expression inner tr (Some text)))
      with (placeholder (Some text)).
    by rewrite (scan_template_placeholder (Some text) _ Hpart), IH.
Qed.

(** Text without quote and backslash is the text of a literal up to the
    quote that follows it. *)
Lemma string_literal_body_plain (text rest : string) :
  quote_free text = true ->
  string_literal_body (text +:+ String dquote rest) = Some (text, rest).
Proof.
  induction text as [|c text IH]; intros Hfree; [done |].
  simpl in Hfree. apply andb_prop in Hfree as [Hc Hfree].
  apply negb_true_iff, orb_false_elim in Hc as [Hq Hb].
  rewrite append_cons. cbn [string_literal_body].
  by rewrite Hq, Hb, (IH Hfree).
Qed.

Lemma quote_free_app (a b : string) :
  quote_free (a +:+ b) = quote_free a && quote_free b.
Proof.
  induction a as [|c a IH]; [done |]. rewrite append_cons. simpl.
  by rewrite IH, andb_assoc.
Qed.

Lemma quote_free_segments (segs : list segment) (values : list ast.fpart) :
  Forall2 describes segs values ->
  forallb simple_part values = true ->
  quote_free (String.concat EmptyString (template_piece <$> segs)) = true.
Proof.
  induction 1 as [|s part segs values Hs _ IH]; [done |].
  intros Hsimple. simpl in Hsimple. apply andb_prop in Hsimple as [Hpart Hrest].
  rewrite fmap_cons, concat_cons, quote_free_app, (IH Hrest), andb_true_r.
  destruct Hs as [text | inner tr conv Hinner | inner tr conv text more Hinner];
    simpl in Hpart.
  - by apply andb_prop in Hpart as [_ Hpart].
  - done.
  - destruct more; [| done]. apply andb_prop in Hpart as [_ Hpart].
    cbn [template_piece placeholder].
    by rewrite !quote_free_app, Hpart.
Qed.

Lemma concat_str_concat (pieces : list string) :
  concat_str pieces = String.concat EmptyString pieces.
Proof.
  induction pieces as [|piece [|piece' pieces] IH]; [done | |].
  - simpl. by rewrite append_empty_r.
  - change (concat_str (piece :: piece' :: pieces))
      with (piece +:+ concat_str (piece' :: pieces)).
    by rewrite IH.
Qed.

(** C4.  An interpolated string whose inner expressions translate, whose
    runs of literal text hold no brace, double quote or backslash, and whose
    specifiers are each one such run, is rendered as one [format!]
    invocation: the word [format!(], a double quote, the template, a double
    quote, a comma, the arguments separated by commas and a closing
    parenthesis.  The template is the runs of literal text, as they are,
    and one placeholder per expression segment, where the segment stands:
    [{:?}] without a specifier, the specifier text between [{:#] and [}]
    with one.  It is all of the string literal that the quotes enclose, and,
    read as a template, it holds exactly these placeholders, in order, as
    many as there are expression segments.  The arguments are the
    translations of the inner expressions, left to right. *)
Theorem visit_JoinedStr_format (segs : list segment)
    (values : list ast.fpart) :
  Forall2 describes segs values ->
  forallb simple_part values = true ->
  ∃ template found rest,
    visit (ast.JoinedStr values)
    = Ok (VStr ("format!(" +:+ String "034" (template +:+ String "034" rest))) ∧
    rest = "," +:+ String.concat "," (arguments segs) +:+ ")" ∧
    string_literal_body (template +:+ String "034" rest)
    = Some (template, rest) ∧
    template = String.concat EmptyString (template_piece <$> segs) ∧
    scan_template None template = Some found ∧
    found = placeholders segs ∧
    length found = expression_segments values ∧
    Forall2 (λ inner translation, visit inner = Ok (VStr translation))
      (inner_expressions values) (arguments segs).
Proof.
  intros Hd Hsimple.
  exists (String.concat EmptyString (template_piece <$> segs)),
    (placeholders segs),
    ("," +:+ String.concat "," (arguments segs) +:+ ")").
  split; [| split; [done | split; [| split; [done | split;
    [| split; [done | split]]]]]].
  - rewrite visit_JoinedStr_eq. unfold visit_JoinedStr.
    rewrite (formatted_values_arguments _ _ Hd), bind_Ok.
    rewrite (foldM_add_part_template _ _ Hd), bind_Ok.
    rewrite str_join_strings, bind_Ok.
    rewrite join_concat, concat_str_concat.
    by rewrite !append_assoc.
  - apply string_literal_body_plain.
    by apply (quote_free_segments segs values).
  - by apply (scan_template_segments segs values).
  - by apply placeholders_length.
  - by apply arguments_inner_expressions.
Qed.

Lemma visit_JoinedStr_format_witness :
  ∃ template found rest,
    visit (ast.JoinedStr
             [ast.Text "x="; ast.FormattedValue (ast.Name "x" false) (-1) None;
              ast.Text " y=";
              ast.FormattedValue (ast.Name "y" false) (-1)
                (Some [ast.Text "02"])])
    = Ok (VStr ("format!(" +:+ String "034" (template +:+ String "034" rest))) ∧
    rest = ",x,y)" ∧
    string_literal_body (template +:+ String "034" rest)
    = Some (template, rest) ∧
    template = "x={:?} y={:#02}" ∧
    scan_template None template = Some found ∧
    found = ["{:?}"; "{:#02}"] ∧
    length found = 2%nat ∧
    Forall2 (λ inner translation, visit inner = Ok (VStr translation))
      [ast.Name "x" false; ast.Name "y" false] ["x"; "y"].
Proof.
  refine (visit_JoinedStr_format
            [Literal "x="; Expression (ast.Name "x" false) "x" None;
             Literal " y=";
             Expression (ast.Name "y" false) "y" (Some "02")]
            [ast.Text "x="; ast.FormattedValue (ast.Name "x" false) (-1) None;
             ast.Text " y=";
             ast.FormattedValue (ast.Name "y" false) (-1)
               (Some [ast.Text "02"])] _ eq_refl).
  repeat constructor.
Defined.

(** C4 as stated fails on what is copied without care.  Braces in a run of
    literal text or in a specifier are read as placeholders of the
    template: one expression segment after the literal text [{:?}], or with
    the specifier [}{], gives a template of two placeholders for one
    argument.  A double quote in a run of literal text closes the string
    literal: after it, the template is empty and holds no placeholder for
    the one argument.  And a specifier of several parts is cut after its
    first run: [0{w}d] is rendered as the specifier [0] is. *)
Lemma visit_JoinedStr_braces_are_placeholders :
  (expression_segments
     [ast.Text "{:?}"; ast.FormattedValue (ast.Name "x" false) (-1) None]
   = 1%nat ∧
   visit (ast.JoinedStr
            [ast.Text "{:?}"; ast.FormattedValue (ast.Name "x" false) (-1) None])
   = Ok (VStr ("format!(" +:+ String "034" ("{:?}{:?}" +:+ String "034" ",x)"))) ∧
   scan_template None "{:?}{:?}" = Some ["{:?}"; "{:?}"]) ∧
  (expression_segments
     [ast.FormattedValue (ast.Name "x" false) (-1) (Some [ast.Text "}{"])]
   = 1%nat ∧
   visit (ast.JoinedStr
            [ast.FormattedValue (ast.Name "x" false) (-1) (Some [ast.Text "}{"])])
   = Ok (VStr ("format!(" +:+ String "034" ("{:#}{}" +:+ String "034" ",x)"))) ∧
   scan_template None "{:#}{}" = Some ["{:#}"; "{}"]) ∧
  (expression_segments
     [ast.Text (String "034" EmptyString);
      ast.FormattedValue (ast.Name "x" false) (-1) None]
   = 1%nat ∧
   visit (ast.JoinedStr
            [ast.Text (String "034" EmptyString);
             ast.FormattedValue (ast.Name "x" false) (-1) None])
   = Ok (VStr ("format!(" +:+ String "034"
                 (String "034" ("{:?}" +:+ String "034" ",x)")))) ∧
   string_literal_body (String "034" ("{:?}" +:+ String "034" ",x)"))
   = Some (EmptyString, "{:?}" +:+ String "034" ",x)") ∧
   scan_template None EmptyString = Some []) ∧
  (visit (ast.JoinedStr
            [ast.FormattedValue (ast.Name "x" false) (-1)
               (Some [ast.Text "0";
                      ast.FormattedValue (ast.Name "w" false) (-1) None;
                      ast.Text "d"])])
   = Ok (VStr ("format!(" +:+ String "034" ("{:#0}" +:+ String "034" ",x)"))) ∧
   visit (ast.JoinedStr
            [ast.FormattedValue (ast.Name "x" false) (-1) (Some [ast.Text "0"])])
   = Ok (VStr ("format!(" +:+ String "034" ("{:#0}" +:+ String "034" ",x)")))).
Proof. repeat split. Qed.

(** ** Numbers *)

(** The limit of [str] on an [int] is the least number of 4301 digits. *)
Lemma int_max_str_eq : int_max_str = 10 ^ 4300.
Proof. by vm_compute. Qed.

(** *** Rounding *)

Lemma div_cross (a1 b1 a2 b2 : Z) :
  0 < b1 -> 0 < b2 -> a1 * b2 = a2 * b1 -> a1 / b1 = a2 / b2.
Proof.
  intros H1 H2 Hc.
  rewrite <- (Z.div_mul_cancel_r a1 b1 b2) by lia.
  rewrite <- (Z.div_mul_cancel_r a2 b2 b1) by lia.
  rewrite Hc. f_equal. lia.
Qed.

(** [round_half_even num den] is at most half a unit from [num / den], and
    even when it is half a unit from it. *)
Lemma round_half_even_spec (num den : Z) :
  0 < den ->
  2 * Z.abs (num - round_half_even num den * den) < den ∨
  (2 * Z.abs (num - round_half_even num den * den) = den ∧
   Z.even (round_half_even num den) = true).
Proof.
  intros Hden. unfold round_half_even.
  pose proof (Z.div_mod num den ltac:(lia)) as Hdm.
  pose proof (Z.mod_pos_bound num den Hden) as Hr.
  destruct (Z.compare_spec (2 * (num mod den)) den) as [Heq | Hlt | Hgt].
  - destruct (Z.even (num / den)) eqn:Heven.
    + right. split; [lia | done].
    + right. split; [lia |].
      rewrite Z.even_add, Heven. reflexivity.
  - left. lia.
  - left. lia.
Qed.

Lemma round_half_even_unique (num den m : Z) :
  0 < den ->
  2 * Z.abs (num - m * den) < den ∨
  (2 * Z.abs (num - m * den) = den ∧ Z.even m = true) ->
  round_half_even num den = m.
Proof.
  intros Hden Hm.
  destruct (round_half_even_spec num den Hden) as [Hr | [Hr Hev]];
    set (r := round_half_even num den) in *; clearbody r.
  - destruct Hm as [Hm | [Hm _]]; nia.
  - destruct Hm as [Hm | [Hm Hev']]; [nia |].
    assert (r = m ∨ r = m + 1 ∨ r = m - 1) as [-> | [-> | ->]] by nia;
      [done | |].
    + rewrite Z.even_add, Hev' in Hev. done.
    + rewrite Z.even_sub, Hev' in Hev. done.
Qed.

Lemma round_half_even_ext (a1 b1 a2 b2 : Z) :
  0 < b1 -> 0 < b2 -> a1 * b2 = a2 * b1 ->
  round_half_even a1 b1 = round_half_even a2 b2.
Proof.
  intros H1 H2 Hc. symmetry. apply round_half_even_unique; [done |].
  destruct (round_half_even_spec a1 b1 H1) as [Hr | [Hr Hev]];
    set (r := round_half_even a1 b1) in *; clearbody r.
  - left. nia.
  - right. split; [nia | done].
Qed.

Lemma round_binary_scaled (p emin emax num den : Z) :
  emin <= 0 -> 0 < den ->
  round_binary p emin emax num den
  = let '(m, s) := round_scaled p (num * 2 ^ (- emin)) den in
    if emax <? s + emin then None else Some (m, s + emin).
Proof.
  intros Hemin Hden. unfold round_binary, round_scaled.
  set (l := Z.log2 (num * 2 ^ (- emin) / den)).
  assert (He : Z.max (l + emin - (p - 1)) emin = Z.max (l - (p - 1)) 0 + emin)
    by lia.
  rewrite He. set (s := Z.max (l - (p - 1)) 0).
  assert (Hs : 0 <= s) by lia.
  assert (Hm : (if 0 <=? s + emin then round_half_even num (den * 2 ^ (s + emin))
                else round_half_even (num * 2 ^ (- (s + emin))) den)
               = round_half_even (num * 2 ^ (- emin)) (den * 2 ^ s)).
  { destruct (Z.leb_spec 0 (s + emin)).
    - apply round_half_even_ext; [nia | nia |].
      replace s with ((s + emin) + (- emin)) at 1 by lia.
      rewrite Z.pow_add_r by lia. ring.
    - apply round_half_even_ext; [nia | nia |].
      replace (- emin) with (- (s + emin) + s) by lia.
      rewrite Z.pow_add_r by lia. ring. }
  rewrite Hm.
  destruct (round_half_even (num * 2 ^ (- emin)) (den * 2 ^ s) =? 2 ^ p);
    [| done].
  by replace (s + emin + 1) with (s + 1 + emin) by lia.
Qed.

Lemma round_scaled_ext (p a1 b1 a2 b2 : Z) :
  0 < b1 -> 0 < b2 -> a1 * b2 = a2 * b1 ->
  round_scaled p a1 b1 = round_scaled p a2 b2.
Proof.
  intros H1 H2 Hc. unfold round_scaled.
  rewrite (div_cross a1 b1 a2 b2) by done.
  set (s := Z.max _ 0).
  rewrite (round_half_even_ext a1 (b1 * 2 ^ s) a2 (b2 * 2 ^ s)); [done | | |].
  - assert (0 < 2 ^ s) by (apply Z.pow_pos_nonneg; lia). nia.
  - assert (0 < 2 ^ s) by (apply Z.pow_pos_nonneg; lia). nia.
  - nia.
Qed.

Lemma round_binary_ext (p emin emax a1 b1 a2 b2 : Z) :
  emin <= 0 -> 0 < b1 -> 0 < b2 -> a1 * b2 = a2 * b1 ->
  round_binary p emin emax a1 b1 = round_binary p emin emax a2 b2.
Proof.
  intros He H1 H2 Hc. rewrite !round_binary_scaled by done.
  rewrite (round_scaled_ext p (a1 * 2 ^ (- emin)) b1 (a2 * 2 ^ (- emin)) b2);
    [done | done | done | nia].
Qed.

(** What is near enough to a number of the format is rounded to it. *)
Lemma round_scaled_near (p scaled den m s : Z) :
  1 <= p -> 0 < den -> 0 <= s -> 0 <= m < 2 ^ p ->
  2 ^ (p - 1) <= m ∨ s = 0 ->
  4 * Z.abs (scaled - m * 2 ^ s * den) < den * 2 ^ s ->
  round_scaled p scaled den = (m, s).
Proof.
  intros Hp Hden Hs Hm Hcanon Hnear.
  assert (Hpp : 2 ^ p = 2 * 2 ^ (p - 1)).
  { replace p with (1 + (p - 1)) at 1 by lia. by rewrite Z.pow_add_r by lia. }
  assert (HQ : 0 < 2 ^ (p - 1)) by (apply Z.pow_pos_nonneg; lia).
  assert (Hround : ∀ s' m', 0 <= s' -> s' = Z.max (Z.log2 (scaled / den) - (p - 1)) 0 ->
            2 * Z.abs (scaled - m' * (den * 2 ^ s')) < den * 2 ^ s' ->
            round_scaled p scaled den
            = if m' =? 2 ^ p then (2 ^ (p - 1), s' + 1) else (m', s')).
  { intros s' m' Hs' Hlog Hm'. unfold round_scaled. rewrite <- Hlog.
    assert (0 < 2 ^ s') by (apply Z.pow_pos_nonneg; lia).
    rewrite (round_half_even_unique scaled (den * 2 ^ s') m');
      [done | nia | by left]. }
  destruct (decide (s = 0)) as [-> | Hs0].
  - (* the least exponent *)
    change (2 ^ 0) with 1 in Hnear.
    assert (Hlow : m - 1 <= scaled / den)
      by (apply Z.div_le_lower_bound; [done | nia]).
    assert (Hhigh : scaled / den < m + 1)
      by (apply Z.div_lt_upper_bound; [done | nia]).
    assert (Hlog : Z.log2 (scaled / den) < p).
    { destruct (decide (0 < scaled / den)) as [Hpos | Hneg].
      - apply Z.log2_lt_pow2; [done | lia].
      - rewrite Z.log2_nonpos by lia. lia. }
    rewrite (Hround 0 m); [| done | lia |].
    + destruct (Z.eqb_spec m (2 ^ p)); [lia | done].
    + change (2 ^ 0) with 1. lia.
  - destruct Hcanon as [Hnormal | ?]; [| done].
    assert (HPs : 2 ^ s = 2 * 2 ^ (s - 1)).
    { replace s with (1 + (s - 1)) at 1 by lia. by rewrite Z.pow_add_r by lia. }
    assert (HP' : 0 < 2 ^ (s - 1)) by (apply Z.pow_pos_nonneg; lia).
    rewrite HPs in Hnear.
    set (P' := 2 ^ (s - 1)) in *. set (Q := 2 ^ (p - 1)) in *.
    set (A := den * P') in *.
    assert (HA : 0 < A) by (unfold A; nia).
    replace (m * (2 * P') * den) with (2 * (m * A)) in Hnear
      by (unfold A; ring).
    replace (den * (2 * P')) with (2 * A) in Hnear by (unfold A; ring).
    assert (HmA : Q * A <= m * A) by (apply Z.mul_le_mono_nonneg_r; lia).
    assert (HQA : A <= Q * A) by nia.
    assert (HmA' : (m + 1) * A <= 2 * Q * A)
      by (apply Z.mul_le_mono_nonneg_r; lia).
    destruct (decide (m = Q ∧ scaled < 2 * (m * A))) as [[-> Hbelow] | Hsame].
    + (* just below a power of two: one exponent down, rounded up *)
      assert (Hlog : Z.log2 (scaled / den) = p - 1 + (s - 1)).
      { apply Z.log2_unique; [lia |].
        replace (Z.succ (p - 1 + (s - 1))) with ((p - 1) + (s - 1) + 1) by lia.
        rewrite !Z.pow_add_r by lia. fold P' Q. change (2 ^ 1) with 2.
        split.
        - apply Z.div_le_lower_bound; [done |].
          replace (den * (Q * P')) with (Q * A) by (unfold A; ring). lia.
        - apply Z.div_lt_upper_bound; [done |].
          replace (den * (Q * P' * 2)) with (2 * (Q * A)) by (unfold A; ring).
          lia. }
      rewrite (Hround (s - 1) (2 ^ p)); [| lia | lia |].
      * rewrite Z.eqb_refl. f_equal. lia.
      * fold P' A. rewrite Hpp. fold Q.
        replace (2 * Q * A) with (2 * (Q * A)) by ring. lia.
    + assert (Hlog : Z.log2 (scaled / den) = p - 1 + s).
      { apply Z.log2_unique; [lia |].
        replace (Z.succ (p - 1 + s)) with ((p - 1) + 1 + s) by lia.
        rewrite !Z.pow_add_r by lia. rewrite HPs. fold P' Q.
        change (2 ^ 1) with 2.
        split.
        - apply Z.div_le_lower_bound; [done |].
          replace (den * (Q * (2 * P'))) with (2 * (Q * A)) by (unfold A; ring).
          destruct (decide (m = Q)) as [-> | Hne]; [lia |].
          assert ((Q + 1) * A <= m * A)
            by (apply Z.mul_le_mono_nonneg_r; lia).
          lia.
        - apply Z.div_lt_upper_bound; [done |].
          replace (den * (Q * 2 * (2 * P'))) with (2 * (2 * Q * A))
            by (unfold A; ring).
          lia. }
      rewrite (Hround s m); [| lia | lia |].
      * destruct (Z.eqb_spec m (2 ^ p)); [lia | done].
      * rewrite HPs. fold P'.
        replace (m * (den * (2 * P'))) with (2 * (m * A)) by (unfold A; ring).
        replace (den * (2 * P')) with (2 * A) by (unfold A; ring). lia.
Qed.

(** A number is rounded to a number of the format at most half a unit of
    its last place away. *)
Lemma round_scaled_bound (p scaled den m s : Z) :
  1 <= p -> 0 < den ->
  round_scaled p scaled den = (m, s) ->
  0 <= s ∧ 2 * Z.abs (scaled - m * 2 ^ s * den) <= den * 2 ^ s.
Proof.
  intros Hp Hden. unfold round_scaled.
  set (s' := Z.max _ 0). assert (Hs' : 0 <= s') by lia.
  assert (HP : 0 < 2 ^ s') by (apply Z.pow_pos_nonneg; lia).
  assert (Hspec : 2 * Z.abs (scaled - round_half_even scaled (den * 2 ^ s') * (den * 2 ^ s'))
                  <= den * 2 ^ s').
  { destruct (round_half_even_spec scaled (den * 2 ^ s')) as [H | [H _]]; nia. }
  destruct (Z.eqb_spec (round_half_even scaled (den * 2 ^ s')) (2 ^ p)) as [Heq | Hne];
    intros [= <- <-].
  - split; [lia |]. rewrite Heq in Hspec.
    rewrite (Z.pow_add_r 2 s' 1) by lia. change (2 ^ 1) with 2.
    assert (Hpp : 2 ^ p = 2 * 2 ^ (p - 1)).
    { replace p with (1 + (p - 1)) at 1 by lia. by rewrite Z.pow_add_r by lia. }
    rewrite Hpp in Hspec.
    replace (2 ^ (p - 1) * (2 ^ s' * 2) * den) with (2 * 2 ^ (p - 1) * (den * 2 ^ s'))
      by ring.
    nia.
  - split; [lia |].
    replace (round_half_even scaled (den * 2 ^ s') * 2 ^ s' * den)
      with (round_half_even scaled (den * 2 ^ s') * (den * 2 ^ s')) by ring.
    done.
Qed.

(** A binary64 is the rounding of its own value. *)
Lemma binary64_bounds (m e : Z) :
  binary64 m e = true ->
  0 <= m < 2 ^ 53 ∧ -1074 <= e <= 971 ∧ (2 ^ 52 <= m ∨ e = -1074).
Proof.
  unfold binary64. rewrite !andb_true_iff, orb_true_iff. lia.
Qed.

Lemma binary_fraction_pos (m e : Z) : 0 < (binary_fraction m e).2.
Proof.
  unfold binary_fraction. destruct (Z.leb_spec 0 e); simpl; [lia |].
  apply Z.pow_pos_nonneg; lia.
Qed.

Lemma decimal_fraction_pos (d k : Z) : 0 < (decimal_fraction d k).2.
Proof.
  unfold decimal_fraction. destruct (Z.leb_spec 0 k); simpl; [lia |].
  apply Z.pow_pos_nonneg; lia.
Qed.

Lemma round_binary64_exact (m e num den : Z) :
  binary64 m e = true -> 0 < den ->
  num * (binary_fraction m e).2 = (binary_fraction m e).1 * den ->
  round_binary64 num den = Some (m, e).
Proof.
  intros Hb Hden Hval. apply binary64_bounds in Hb as (Hm & He & Hcanon).
  unfold round_binary64.
  rewrite (round_binary_ext 53 (-1074) 971 num den _ _ ltac:(lia) Hden
             (binary_fraction_pos m e) Hval).
  pose proof (binary_fraction_pos m e) as Hpos.
  rewrite round_binary_scaled by (done || lia).
  rewrite (round_scaled_near 53 _ _ m (e + 1074)); [| lia | done | lia | done | | ].
  - destruct (Z.ltb_spec 971 (e + 1074 + -1074)); [lia |].
    do 2 f_equal. lia.
  - destruct Hcanon; [by left | right; lia].
  - assert (HP : 0 < 2 ^ (e + 1074)) by (apply Z.pow_pos_nonneg; lia).
    assert (Hexact : (binary_fraction m e).1 * 2 ^ (- -1074)
                     = m * 2 ^ (e + 1074) * (binary_fraction m e).2).
    { unfold binary_fraction. change (- -1074) with 1074.
      destruct (Z.leb_spec 0 e); cbn [fst snd].
      - rewrite Z.pow_add_r by lia. ring.
      - replace 1074 with ((e + 1074) + (- e)) at 1 by lia.
        rewrite Z.pow_add_r by lia. ring. }
    rewrite Hexact, Z.sub_diag. change (Z.abs 0) with 0. nia.
Qed.

(** A binary64 that is a binary32: its two forms. *)
Lemma narrow_Some (m e m32 e32 : Z) :
  binary64 m e = true ->
  narrow m e = Some (m32, e32) ->
  ∃ shift, 29 <= shift ∧ m = m32 * 2 ^ shift ∧ e32 = e + shift ∧
    0 <= m32 < 2 ^ 24 ∧ -149 <= e32 <= 104 ∧ (2 ^ 23 <= m32 ∨ e32 = -149).
Proof.
  intros Hb. apply binary64_bounds in Hb as (Hm & He & Hcanon).
  unfold narrow. set (shift := Z.max 29 (-149 - e)).
  destruct (Z.eqb_spec (m mod 2 ^ shift) 0) as [Hmod |]; [| done].
  destruct (Z.leb_spec (e + shift) 104) as [Hmax |]; [| done].
  intros [= <- <-]. exists shift.
  assert (HP : 0 < 2 ^ shift) by (apply Z.pow_pos_nonneg; lia).
  assert (Hdiv : m = m / 2 ^ shift * 2 ^ shift).
  { pose proof (Z.div_mod m (2 ^ shift) ltac:(lia)). lia. }
  assert (H29 : 2 ^ shift = 2 ^ 29 * 2 ^ (shift - 29)).
  { rewrite <- Z.pow_add_r by lia. f_equal. lia. }
  assert (HP' : 0 < 2 ^ (shift - 29)) by (apply Z.pow_pos_nonneg; lia).
  split; [lia |]. split; [done |]. split; [done |].
  split; [| split; [lia |]].
  - split; [apply Z.div_pos; lia |].
    apply Z.div_lt_upper_bound; [done |]. rewrite H29.
    change (2 ^ 53) with (2 ^ 29 * 2 ^ 24) in Hm. nia.
  - destruct (decide (shift = 29)) as [Hs | Hs]; [left | right; lia].
    destruct Hcanon as [Hn | ->]; [| lia].
    rewrite Hs. apply Z.div_le_lower_bound; [lia |].
    change (2 ^ 52) with (2 ^ 29 * 2 ^ 23) in Hn. lia.
Qed.

Lemma widen_narrow (m e m32 e32 : Z) :
  binary64 m e = true ->
  narrow m e = Some (m32, e32) ->
  widen m32 e32 = (m, e).
Proof.
  intros Hb Hn.
  destruct (narrow_Some _ _ _ _ Hb Hn) as (shift & Hs & Hm32 & -> & Hr & He & Hc).
  apply binary64_bounds in Hb as (Hm & He64 & Hcanon).
  assert (HP : 0 < 2 ^ shift) by (apply Z.pow_pos_nonneg; lia).
  unfold widen. destruct (Z.eqb_spec m32 0) as [-> | Hne].
  - f_equal; lia.
  - assert (Hnormal : 2 ^ 52 <= m).
    { destruct Hcanon as [? | ->]; [done |].
      exfalso.
      assert (2 ^ 925 <= 2 ^ shift) by (apply Z.pow_le_mono_r; lia).
      assert (2 ^ 53 < 2 ^ 925) by (apply Z.pow_lt_mono_r; lia).
      nia. }
    assert (shift <= 52).
    { destruct (decide (shift <= 52)); [done |]. exfalso.
      assert (2 ^ 53 <= 2 ^ shift) by (apply Z.pow_le_mono_r; lia). nia. }
    assert (Hlog : Z.log2 m32 = 52 - shift).
    { apply Z.log2_unique; [lia |].
      assert (H52 : 2 ^ 52 = 2 ^ (52 - shift) * 2 ^ shift).
      { rewrite <- Z.pow_add_r by lia. f_equal. lia. }
      assert (H53 : 2 ^ 53 = 2 ^ Z.succ (52 - shift) * 2 ^ shift).
      { rewrite <- Z.pow_add_r by lia. f_equal. lia. }
      nia. }
    rewrite Hlog. f_equal; [| lia].
    replace (52 - (52 - shift)) with shift by lia. lia.
Qed.

(** Reading at [f32] what is read at [f64] as a binary64 that is a
    binary32. *)
Lemma round_binary32_of_64 (m e m32 e32 num den : Z) :
  binary64 m e = true ->
  narrow m e = Some (m32, e32) ->
  0 < den ->
  round_binary64 num den = Some (m, e) ->
  round_binary32 num den = Some (m32, e32).
Proof.
  intros Hb Hn Hden H64.
  destruct (narrow_Some _ _ _ _ Hb Hn) as (shift & Hs & Hm32 & -> & Hr & He & Hc).
  unfold round_binary64 in H64. rewrite round_binary_scaled in H64 by lia.
  destruct (round_scaled 53 (num * 2 ^ (- -1074)) den) as [m' s'] eqn:Hscaled.
  destruct (971 <? s' + -1074); [done |]. injection H64 as -> He'.
  apply round_scaled_bound in Hscaled as [Hs' Hbound]; [| lia | done].
  unfold round_binary32. rewrite round_binary_scaled by lia.
  rewrite (round_scaled_near 24 _ _ m32 (e + shift + 149));
    [| lia | done | lia | done | |].
  - destruct (Z.ltb_spec 104 (e + shift + 149 + -149)); [lia |].
    do 2 f_equal. lia.
  - destruct Hc; [by left | right; lia].
  - change (- -1074) with (925 + 149) in Hbound. change (- -149) with 149.
    rewrite Z.pow_add_r in Hbound by lia.
    assert (Hs64 : s' = e + 1074) by lia. subst s'.
    assert (H2 : 2 ^ (e + shift + 149) * 2 ^ 925 = 2 ^ shift * 2 ^ (e + 1074)).
    { rewrite <- !Z.pow_add_r by lia. f_equal. lia. }
    assert (Hsh : 2 ^ shift = 4 * 2 ^ (shift - 2)).
    { change 4 with (2 ^ 2). rewrite <- Z.pow_add_r by lia. f_equal. lia. }
    assert (0 < 2 ^ (shift - 2)) by (apply Z.pow_pos_nonneg; lia).
    assert (0 < 2 ^ (e + 1074)) by (apply Z.pow_pos_nonneg; lia).
    assert (0 < 2 ^ (e + shift + 149)) by (apply Z.pow_pos_nonneg; lia).
    assert (0 < 2 ^ 925) by (apply Z.pow_pos_nonneg; lia).
    set (U := 2 ^ 925) in *. set (V := 2 ^ (e + 1074)) in *.
    set (W := 2 ^ (e + shift + 149)) in *. set (R := 2 ^ (shift - 2)) in *.
    set (n := num * 2 ^ 149) in *.
    (* in units of [U]: the distance is at most [den * V / 2], and
       [W * U = 4 * R * V] *)
    assert (Hdist : 2 * (Z.abs (n - m32 * W * den) * U) <= den * V).
    { assert (Heq : (n - m32 * W * den) * U
                    = num * (U * 2 ^ 149) - m * V * den).
      { unfold n. rewrite Hm32.
        transitivity (num * 2 ^ 149 * U - m32 * (W * U) * den); [ring |].
        rewrite H2. ring. }
      rewrite <- Heq, Z.abs_mul, (Z.abs_eq U) in Hbound by lia. done. }
    assert (HWU : den * W * U = 4 * R * (den * V)).
    { transitivity (den * (W * U)); [ring |]. rewrite H2, Hsh. ring. }
    assert (0 < den * V) by nia.
    assert (den * V <= R * (den * V)) by nia.
    apply (Z.mul_lt_mono_pos_r U); [lia |].
    rewrite HWU. lia.
Qed.

(** *** Decimals *)

Lemma decimal_fraction_shift (d k j : Z) :
  0 <= j ->
  (decimal_fraction (d * 10 ^ j) k).1 * (decimal_fraction d (k + j)).2
  = (decimal_fraction d (k + j)).1 * (decimal_fraction (d * 10 ^ j) k).2.
Proof.
  intros Hj. unfold decimal_fraction.
  destruct (Z.leb_spec 0 k), (Z.leb_spec 0 (k + j)); cbn [fst snd]; try lia.
  - rewrite Z.pow_add_r by lia. ring.
  - replace j with ((k + j) + (- k)) at 1 by lia.
    rewrite Z.pow_add_r by lia. ring.
  - replace (- k) with (j + (- (k + j))) by lia.
    rewrite Z.pow_add_r by lia. ring.
Qed.

Lemma round_decimal_alt (d k : Z) :
  round_decimal d k
  = round_binary64 (decimal_fraction d k).1 (decimal_fraction d k).2.
Proof. unfold round_decimal. by destruct (decimal_fraction d k). Qed.

(** Zeros moved between the digits and the exponent do not change what a
    decimal is read as. *)
Lemma round_binary_decimal_shift (p emin emax d k j : Z) :
  emin <= 0 -> 0 <= j ->
  round_binary p emin emax (decimal_fraction (d * 10 ^ j) k).1
    (decimal_fraction (d * 10 ^ j) k).2
  = round_binary p emin emax (decimal_fraction d (k + j)).1
      (decimal_fraction d (k + j)).2.
Proof.
  intros He Hj. apply round_binary_ext;
    [done | apply decimal_fraction_pos | apply decimal_fraction_pos |].
  by apply decimal_fraction_shift.
Qed.

Lemma candidates_nonneg (m e k d : Z) :
  0 <= m -> d ∈ candidates m e k -> 0 <= d.
Proof.
  intros Hm. unfold candidates.
  pose proof (binary_fraction_pos m e) as Hvd.
  assert (Hvn : 0 <= (binary_fraction m e).1).
  { unfold binary_fraction. destruct (Z.leb_spec 0 e); cbn [fst snd]; [| done].
    assert (0 < 2 ^ e) by (apply Z.pow_pos_nonneg; lia). nia. }
  destruct (binary_fraction m e) as [vn vd]. cbn [fst snd] in *.
  set (nd := if 0 <=? k then (vn, vd * 10 ^ k) else (vn * 10 ^ (- k), vd)).
  assert (Hnd : 0 <= nd.1 ∧ 0 < nd.2).
  { unfold nd. destruct (Z.leb_spec 0 k); cbn [fst snd].
    - assert (0 < 10 ^ k) by (apply Z.pow_pos_nonneg; lia). nia.
    - assert (0 < 10 ^ (- k)) by (apply Z.pow_pos_nonneg; lia). nia. }
  destruct nd as [num den]. cbn [fst snd] in Hnd.
  assert (Hq : 0 <= num / den) by (apply Z.div_pos; lia).
  destruct (num mod den =? 0); [rewrite list_elem_of_singleton; lia |].
  destruct (2 * (num mod den) ?= den); [destruct (Z.even (num / den)) | |];
    rewrite !elem_of_cons, elem_of_nil; lia.
Qed.

(** At an exponent low enough, the float is a decimal of that exponent. *)
Lemma candidates_exact (m e k : Z) :
  k <= Z.min e 0 ->
  ∃ q, candidates m e k = [q] ∧
    (decimal_fraction q k).1 * (binary_fraction m e).2
    = (binary_fraction m e).1 * (decimal_fraction q k).2.
Proof.
  intros Hk. unfold candidates, decimal_fraction, binary_fraction.
  assert (Hmul : ∀ q den, 0 < den ->
            (let q' := (q * den) / den in
             let r := (q * den) mod den in
             if r =? 0 then [q']
             else match 2 * r ?= den with
                  | Lt => [q'; q' + 1]
                  | Gt => [q' + 1; q']
                  | Eq => if Z.even q' then [q'; q' + 1] else [q' + 1; q']
                  end) = [q]).
  { intros q den Hden. cbv zeta.
    rewrite Z.mod_mul, Z.div_mul by lia. done. }
  destruct (Z.leb_spec 0 e) as [He | He]; cbn [fst snd].
  - destruct (Z.leb_spec 0 k) as [Hk0 | Hk0].
    + assert (k = 0) as -> by lia. change (10 ^ 0) with 1.
      exists (m * 2 ^ e). split; [| cbn [fst snd]; ring].
      specialize (Hmul (m * 2 ^ e) 1 ltac:(lia)). cbv zeta in Hmul.
      rewrite !Z.mul_1_r in Hmul. rewrite !Z.mul_1_l. exact Hmul.
    + exists (m * 2 ^ e * 10 ^ (- k)). split; [| cbn [fst snd]; ring].
      specialize (Hmul (m * 2 ^ e * 10 ^ (- k)) 1 ltac:(lia)).
      cbv zeta in Hmul. rewrite !Z.mul_1_r in Hmul. exact Hmul.
  - destruct (Z.leb_spec 0 k) as [Hk0 | Hk0]; [lia |].
    assert (H10 : 10 ^ (- k) = 5 ^ (- e) * 10 ^ (e - k) * 2 ^ (- e)).
    { replace (- k) with (- e + (e - k)) by lia.
      rewrite Z.pow_add_r by lia.
      change 10 with (2 * 5) at 1. rewrite Z.pow_mul_l. ring. }
    exists (m * (5 ^ (- e) * 10 ^ (e - k))).
    split; [| cbn [fst snd]; rewrite H10; ring].
    assert (H2 : 0 < 2 ^ (- e)) by (apply Z.pow_pos_nonneg; lia).
    specialize (Hmul (m * (5 ^ (- e) * 10 ^ (e - k))) (2 ^ (- e)) H2).
    cbv zeta in Hmul. rewrite H10.
    replace (m * (5 ^ (- e) * 10 ^ (e - k) * 2 ^ (- e)))
      with (m * (5 ^ (- e) * 10 ^ (e - k)) * 2 ^ (- e)) by ring.
    exact Hmul.
Qed.

(** The digits of [repr] are read back as the float. *)
Lemma shortest_reads_back (m e dl : Z) (fuel : nat) :
  binary64 m e = true ->
  ∀ n d k,
    dl - n + 1 - Z.of_nat fuel <= Z.min e 0 ->
    shortest m e dl n fuel = (d, k) ->
    0 <= d ∧ round_decimal d k = Some (m, e).
Proof.
  intros Hb. induction fuel as [|fuel IH]; intros n d k Hfuel.
  - cbn [shortest]. intros [= <- <-].
    destruct (candidates_exact m e (dl - n + 1) ltac:(lia)) as (q & Hq & Hval).
    rewrite Hq. cbn [hd]. split.
    + apply (candidates_nonneg m e (dl - n + 1));
        [apply binary64_bounds in Hb; lia |].
      rewrite Hq. apply list_elem_of_singleton. done.
    + rewrite round_decimal_alt.
      apply round_binary64_exact; [done | apply decimal_fraction_pos | done].
  - cbn [shortest].
    destruct (List.filter _ _) as [|d' rest] eqn:Hfilter.
    + apply IH. lia.
    + intros [= <- <-].
      assert (Hin : d' ∈ List.filter (round_trips m e (dl - n + 1))
                           (candidates m e (dl - n + 1))).
      { rewrite Hfilter. apply elem_of_cons. by left. }
      apply list_elem_of_In, filter_In in Hin as [Hin Hrt].
      apply list_elem_of_In in Hin.
      split; [apply (candidates_nonneg m e (dl - n + 1));
                [apply binary64_bounds in Hb; lia | done] |].
      unfold round_trips in Hrt.
      destruct (round_decimal d' (dl - n + 1)) as [[m' e'] |]; [| done].
      apply andb_true_iff in Hrt as [Hm He].
      apply Z.eqb_eq in Hm, He. by subst.
Qed.

Lemma shortest_decimal_reads_back (m e d k : Z) :
  binary64 m e = true ->
  shortest_decimal m e = (d, k) ->
  0 <= d ∧ round_decimal d k = Some (m, e).
Proof.
  intros Hb. unfold shortest_decimal.
  apply shortest_reads_back; [done | lia].
Qed.

(** *** Digits *)

Lemma digit_value_not_underscore (c : ascii) (d : Z) :
  digit_value c = Some d -> Ascii.eqb c "_" = false.
Proof.
  destruct (Ascii.eqb_spec c "_") as [-> |]; [| done]. by vm_compute.
Qed.

Lemma digit_value_not_minus (c : ascii) (d : Z) :
  digit_value c = Some d -> Ascii.eqb c "-" = false.
Proof.
  destruct (Ascii.eqb_spec c "-") as [-> |]; [| done]. by vm_compute.
Qed.

Lemma digit_value_not_point (c : ascii) (d : Z) :
  digit_value c = Some d -> Ascii.eqb c "." = false.
Proof.
  destruct (Ascii.eqb_spec c ".") as [-> |]; [| done]. by vm_compute.
Qed.

Lemma read_digits_app (s t : string) (acc cnt : Z) :
  digits_only s = true ->
  read_digits acc cnt (s +:+ t)
  = read_digits (digits_value acc s) (cnt + Z.of_nat (String.length s)) t.
Proof.
  revert acc cnt. induction s as [|c s IH]; intros acc cnt Hs.
  - cbn [digits_value String.length]. change (EmptyString +:+ t) with t.
    f_equal. lia.
  - cbn [digits_only] in Hs. rewrite append_cons.
    cbn [read_digits digits_value String.length].
    destruct (digit_value c) as [d|] eqn:Hc; [| done].
    rewrite (digit_value_not_underscore c d Hc), (IH _ _ Hs).
    f_equal. lia.
Qed.

Lemma read_digits_all (s : string) (acc cnt : Z) :
  digits_only s = true ->
  read_digits acc cnt s
  = (digits_value acc s, cnt + Z.of_nat (String.length s), EmptyString).
Proof.
  intros Hs. rewrite <- (append_empty_r s) at 1.
  by rewrite (read_digits_app s EmptyString acc cnt Hs).
Qed.

Lemma read_dec_literal_app (s t : string) :
  digits_only s = true -> s ≠ EmptyString ->
  read_dec_literal (s +:+ t)
  = Some (read_digits (digits_value 0 s) (Z.of_nat (String.length s)) t).
Proof.
  destruct s as [|c s]; [done |]. intros Hs _.
  cbn [digits_only] in Hs. rewrite append_cons.
  cbn [read_dec_literal digits_value String.length].
  destruct (digit_value c) as [d|] eqn:Hc; [| done].
  rewrite (read_digits_app s t _ _ Hs). do 2 f_equal; lia.
Qed.

Lemma digits_only_app (s t : string) :
  digits_only (s +:+ t) = digits_only s && digits_only t.
Proof.
  induction s as [|c s IH]; [done |]. rewrite append_cons.
  cbn [digits_only]. by destruct (digit_value c).
Qed.

Lemma digits_value_app (s t : string) (acc : Z) :
  digits_only s = true ->
  digits_value acc (s +:+ t) = digits_value (digits_value acc s) t.
Proof.
  revert acc. induction s as [|c s IH]; intros acc Hs; [done |].
  cbn [digits_only] in Hs. rewrite append_cons. cbn [digits_value].
  destruct (digit_value c); [by apply IH | done].
Qed.

Lemma digits_only_zeros (n : nat) : digits_only (zeros n) = true.
Proof. induction n as [|n IH]; [done |]. exact IH. Qed.

Lemma digits_value_zeros (n : nat) (acc : Z) :
  digits_value acc (zeros n) = acc * 10 ^ Z.of_nat n.
Proof.
  revert acc. induction n as [|n IH]; intros acc.
  - cbn [zeros digits_value]. change (10 ^ Z.of_nat 0) with 1. lia.
  - cbn [zeros digits_value].
    change (digit_value "0") with (Some 0). cbn match.
    rewrite IH, Nat2Z.inj_succ, Z.pow_succ_r by lia. ring.
Qed.

Lemma length_zeros (n : nat) : String.length (zeros n) = n.
Proof. induction n as [|n IH]; [done |]. simpl. by rewrite IH. Qed.

(** The digits [strip_zeros] takes away. *)
Lemma strip_zeros_spec (s : string) :
  ∃ n, s = strip_zeros s +:+ zeros n.
Proof.
  induction s as [|c s [n IH]]; [by exists 0%nat |].
  cbn [strip_zeros]. destruct (strip_zeros s) as [|c' r] eqn:Hstrip.
  - change (EmptyString +:+ zeros n) with (zeros n) in IH.
    destruct (Ascii.eqb_spec c "0") as [-> | Hc].
    + exists (S n). by rewrite IH.
    + exists n. by rewrite IH.
  - exists n. rewrite append_cons. by rewrite <- IH.
Qed.

(** The digits of a natural number. *)
Lemma digits_string_of_uint (d a : Decimal.uint) :
  digits_only (DecimalString.NilEmpty.string_of_uint d) = true ∧
  digits_value (Z.of_N (DecimalPos.Unsigned.of_lu a))
    (DecimalString.NilEmpty.string_of_uint d)
  = Z.of_N (DecimalPos.Unsigned.of_lu (Decimal.revapp d a)).
Proof.
  revert a. induction d as [|d IH|d IH|d IH|d IH|d IH|d IH|d IH|d IH|d IH|d IH];
    intros a; [done | ..];
    cbn [DecimalString.NilEmpty.string_of_uint Decimal.revapp digits_only
         digits_value];
    match goal with
    | |- context [digit_value ?c] =>
        let v := eval vm_compute in (digit_value c) in
        change (digit_value c) with v
    end; cbn match;
    (split; [apply (IH a) |]);
    (etrans; [| apply IH]); f_equal; cbn [DecimalPos.Unsigned.of_lu]; lia.
Qed.

Lemma decimal_digits_spec (z : Z) :
  0 <= z ->
  digits_only (decimal_digits z) = true ∧
  digits_value 0 (decimal_digits z) = z ∧
  decimal_digits z ≠ EmptyString.
Proof.
  intros Hz. unfold decimal_digits.
  destruct (Z.to_N z) as [|p] eqn:Hn.
  - assert (z = 0) as -> by lia. done.
  - cbn [N.to_uint].
    pose proof (DecimalPos.Unsigned.to_uint_nonnil p) as Hnil.
    destruct (digits_string_of_uint (Pos.to_uint p) Decimal.Nil) as [Hd Hv].
    change (Z.of_N (DecimalPos.Unsigned.of_lu Decimal.Nil)) with 0 in Hv.
    change (Decimal.revapp (Pos.to_uint p) Decimal.Nil)
      with (Decimal.rev (Pos.to_uint p)) in Hv.
    rewrite <- DecimalPos.Unsigned.of_uint_alt in Hv.
    rewrite DecimalPos.Unsigned.of_to in Hv.
    unfold DecimalString.NilZero.string_of_uint.
    destruct (Pos.to_uint p) eqn:Hp; [done | ..];
      (split; [exact Hd | split; [rewrite Hv; lia | done]]).
Qed.

Lemma two_digits_spec (z : Z) :
  0 <= z ->
  digits_only (two_digits z) = true ∧ digits_value 0 (two_digits z) = z ∧
  two_digits z ≠ EmptyString.
Proof.
  intros Hz. destruct (decimal_digits_spec z Hz) as (Hd & Hv & Hne).
  unfold two_digits. destruct (z <? 10); [| done].
  split; [exact Hd | split; [exact Hv | done]].
Qed.

Lemma length_pos (s : string) : s ≠ EmptyString -> (0 < String.length s)%nat.
Proof. destruct s; [done | simpl; lia]. Qed.

(** A text cut in two. *)
Lemma substring_split (s : string) (n : nat) :
  (n <= String.length s)%nat ->
  String.substring 0 n s +:+ String.substring n (String.length s - n) s = s ∧
  String.length (String.substring 0 n s) = n.
Proof.
  revert n. induction s as [|c s IH]; intros n Hn.
  - simpl in Hn. assert (n = 0%nat) as -> by lia. done.
  - destruct n as [|n].
    + cbn [String.substring String.length]. 
      change (EmptyString +:+ ?x) with x. split; [| done].
      clear. f_equal.
      enough (H : ∀ t, String.substring 0 (String.length t) t = t)
        by (replace (String.length s - 0)%nat with (String.length s) by lia;
            apply H).
      induction t as [|c' t IHt]; [done |]. simpl. by rewrite IHt.
    + simpl in Hn. destruct (IH n ltac:(lia)) as [Happ Hlen].
      cbn [String.substring String.length]. rewrite append_cons.
      replace (S (String.length s) - S n)%nat with (String.length s - n)%nat
        by lia.
      rewrite Happ, Hlen. done.
Qed.

(** *** Reading what [repr] writes *)

Lemma read_exponent_spec (x : Z) :
  read_exponent
    ("e" +:+ (if x <? 0 then "-" else "+") +:+ two_digits (Z.abs x))
  = Some x.
Proof.
  destruct (two_digits_spec (Z.abs x) ltac:(lia)) as (Hd & Hv & Hne).
  apply length_pos in Hne.
  destruct (Z.ltb_spec x 0);
    [change ("e" +:+ "-" +:+ two_digits (Z.abs x))
       with (String "e" (String "-" (two_digits (Z.abs x))))
    |change ("e" +:+ "+" +:+ two_digits (Z.abs x))
       with (String "e" (String "+" (two_digits (Z.abs x))))];
    cbn [read_exponent Ascii.eqb Bool.eqb orb];
    rewrite (read_digits_all _ 0 0 Hd), Hv;
    (destruct (Z.ltb_spec 0 (0 + Z.of_nat (String.length (two_digits (Z.abs x)))));
       [| lia]); f_equal; lia.
Qed.

(** A literal made of digits and an exponent. *)
Lemma read_float_decimal_exponent (i : string) (x : Z) :
  digits_only i = true -> i ≠ EmptyString ->
  read_float_decimal
    (i +:+ "e" +:+ (if x <? 0 then "-" else "+") +:+ two_digits (Z.abs x))
  = Some (digits_value 0 i, x).
Proof.
  intros Hi Hne. unfold read_float_decimal.
  rewrite (read_dec_literal_app _ _ Hi Hne).
  pose proof (read_exponent_spec x) as Hx.
  set (sign := if x <? 0 then "-" else "+") in *.
  change ("e" +:+ sign +:+ two_digits (Z.abs x))
    with (String "e" (sign +:+ two_digits (Z.abs x))) in *.
  cbn [read_digits Ascii.eqb Bool.eqb].
  change (digit_value "e") with (@None Z). cbn match.
  by rewrite Hx.
Qed.

(** A literal made of digits, a point, digits and what follows them: nothing
    or an exponent. *)
Lemma read_float_decimal_point (i f : string) :
  digits_only i = true -> i ≠ EmptyString ->
  digits_only f = true -> f ≠ EmptyString ->
  read_float_decimal (i +:+ "." +:+ f)
  = Some (digits_value 0 (i +:+ f), - Z.of_nat (String.length f)) ∧
  ∀ x,
    read_float_decimal
      (i +:+ "." +:+ f +:+ "e" +:+ (if x <? 0 then "-" else "+")
       +:+ two_digits (Z.abs x))
    = Some (digits_value 0 (i +:+ f), x - Z.of_nat (String.length f)).
Proof.
  intros Hi Hine Hf Hfne.
  assert (Hfirst : ∀ t, ∃ c d rest,
            f +:+ t = String c rest ∧ digit_value c = Some d).
  { intros t. destruct f as [|c f]; [done |]. cbn [digits_only] in Hf.
    destruct (digit_value c) as [d|] eqn:Hc; [| done].
    exists c, d, (f +:+ t). by rewrite append_cons. }
  split; [| intros x]; unfold read_float_decimal;
    rewrite (read_dec_literal_app _ _ Hi Hine).
  - change ("." +:+ f) with (String "." f).
    cbn [read_digits Ascii.eqb Bool.eqb].
    change (digit_value ".") with (@None Z). cbn match.
    destruct (Hfirst EmptyString) as (c & d & rest & Heq & Hc).
    rewrite append_empty_r in Heq. rewrite Heq, Hc, <- Heq.
    rewrite (read_digits_all _ _ _ Hf), (digits_value_app _ _ _ Hi).
    change (Ascii.eqb "." ".") with true. cbn match.
    do 2 f_equal; lia.
  - pose proof (read_exponent_spec x) as Hx.
    set (sign := if x <? 0 then "-" else "+") in *.
    change ("." +:+ f +:+ "e" +:+ sign +:+ two_digits (Z.abs x))
      with (String "." (f +:+ "e" +:+ sign +:+ two_digits (Z.abs x))).
    cbn [read_digits Ascii.eqb Bool.eqb].
    change (digit_value ".") with (@None Z). cbn match.
    destruct (Hfirst ("e" +:+ sign +:+ two_digits (Z.abs x)))
      as (c & d & rest & Heq & Hc).
    rewrite Heq, Hc, <- Heq.
    rewrite (read_digits_app _ _ _ _ Hf), (digits_value_app _ _ _ Hi).
    change ("e" +:+ sign +:+ two_digits (Z.abs x))
      with (String "e" (sign +:+ two_digits (Z.abs x))) in *.
    cbn [read_digits Ascii.eqb Bool.eqb].
    change (digit_value "e") with (@None Z).
    change (Ascii.eqb "." ".") with true. cbn match.
    rewrite Hx. cbn. do 2 f_equal; lia.
Qed.

(** What [format_digits] writes is read as the decimal of the digits at the
    place of the point, up to zeros moved from the exponent to the
    digits. *)
Lemma format_digits_read (ds : string) (decpt : Z) :
  digits_only ds = true -> ds ≠ EmptyString ->
  ∃ D K j,
    read_float_decimal (format_digits ds decpt true) = Some (D, K) ∧
    0 <= j ∧ D = digits_value 0 ds * 10 ^ j ∧
    K + j = decpt - Z.of_nat (String.length ds).
Proof.
  intros Hds Hne. unfold format_digits.
  pose proof (length_pos ds Hne) as Hlen.
  destruct ((decpt <=? -4) || (16 <? decpt)).
  - (* exponent notation *)
    destruct ds as [|c [|c2 rest]]; [done | |].
    + exists (digits_value 0 (String c EmptyString)), (decpt - 1), 0.
      split; [by apply read_float_decimal_exponent |].
      cbn [String.length]. lia.
    + assert (Hc : digits_only (String c EmptyString) = true).
      { cbn [digits_only] in Hds |- *. by destruct (digit_value c). }
      assert (Hrest : digits_only (String c2 rest) = true).
      { cbn [digits_only] in Hds |- *. by destruct (digit_value c). }
      destruct (read_float_decimal_point (String c EmptyString)
                  (String c2 rest) Hc ltac:(done) Hrest ltac:(done))
        as [_ Hread].
      exists (digits_value 0 (String c (String c2 rest))),
        (decpt - 1 - Z.of_nat (String.length (String c2 rest))), 0.
      split; [| cbn [String.length]; lia].
      exact (Hread (decpt - 1)).
  - destruct (Z.leb_spec decpt 0) as [Hneg | Hpos].
    + (* zeros after the point *)
      set (n := Z.to_nat (- decpt)).
      assert (Hf : digits_only (zeros n +:+ ds) = true)
        by (by rewrite digits_only_app, digits_only_zeros).
      assert (Hfne : zeros n +:+ ds ≠ EmptyString).
      { intros Heq. apply (f_equal String.length) in Heq.
        rewrite length_append in Heq. simpl in Heq. lia. }
      destruct (read_float_decimal_point "0" (zeros n +:+ ds)
                  ltac:(done) ltac:(done) Hf Hfne) as [Hread _].
      exists (digits_value 0 ds),
        (- Z.of_nat (String.length (zeros n +:+ ds))), 0.
      split; [| rewrite length_append, length_zeros; lia].
      etrans; [exact Hread |]. do 2 f_equal.
      change ("0" +:+ zeros n +:+ ds) with (String "0" (zeros n +:+ ds)).
      cbn [digits_value]. change (digit_value "0") with (Some 0). cbn match.
      rewrite (digits_value_app _ _ _ (digits_only_zeros n)).
      rewrite digits_value_zeros. f_equal; lia.
    + destruct (Z.ltb_spec decpt (Z.of_nat (String.length ds))) as [Hin | Hout].
      * (* the point among the digits *)
        destruct (substring_split ds (Z.to_nat decpt) ltac:(lia))
          as [Hsplit Hlena].
        replace (Z.to_nat (Z.of_nat (String.length ds) - decpt))
          with (String.length ds - Z.to_nat decpt)%nat by lia.
        set (a := String.substring 0 (Z.to_nat decpt) ds) in *.
        set (b := String.substring (Z.to_nat decpt)
                    (String.length ds - Z.to_nat decpt) ds) in *.
        assert (Hlenb : String.length b = (String.length ds - Z.to_nat decpt)%nat).
        { rewrite <- Hsplit at 1. rewrite length_append, Hlena. lia. }
        rewrite <- Hsplit, digits_only_app in Hds.
        apply andb_true_iff in Hds as [Ha Hb].
        assert (Hane : a ≠ EmptyString).
        { intros Heq. rewrite Heq in Hlena. simpl in Hlena. lia. }
        assert (Hbne : b ≠ EmptyString).
        { intros Heq. rewrite Heq in Hlenb. simpl in Hlenb. lia. }
        destruct (read_float_decimal_point a b Ha Hane Hb Hbne) as [Hread _].
        exists (digits_value 0 ds), (- Z.of_nat (String.length b)), 0.
        split; [by rewrite Hread, Hsplit | lia].
      * (* zeros before the point *)
        set (n := Z.to_nat (decpt - Z.of_nat (String.length ds))).
        assert (Hi : digits_only (ds +:+ zeros n) = true)
          by (by rewrite digits_only_app, digits_only_zeros, Hds).
        assert (Hine : ds +:+ zeros n ≠ EmptyString).
        { intros Heq. apply (f_equal String.length) in Heq.
          rewrite length_append in Heq. simpl in Heq. lia. }
        destruct (read_float_decimal_point (ds +:+ zeros n) "0"
                    Hi Hine ltac:(done) ltac:(done)) as [Hread _].
        exists (digits_value 0 ds * 10 ^ (Z.of_nat n + 1)), (-1), (Z.of_nat n + 1).
        split; [| lia].
        rewrite <- append_assoc. change ".0" with ("." +:+ "0").
        rewrite Hread. do 2 f_equal.
        rewrite (digits_value_app _ _ _ Hi), (digits_value_app _ _ _ Hds).
        rewrite digits_value_zeros. cbn [digits_value].
        change (digit_value "0") with (Some 0). cbn match.
        rewrite Z.pow_add_r by lia. change (10 ^ 1) with 10. ring.
Qed.

(** A literal that opens with a digit is under no negation. *)
Lemma read_float_decimal_unsigned (s : string) (dk : Z * Z) :
  read_float_decimal s = Some dk -> split_sign s = (false, s).
Proof.
  unfold read_float_decimal, read_dec_literal, split_sign.
  destruct s as [|c s]; [done |].
  destruct (digit_value c) as [d|] eqn:Hc; [| done].
  by rewrite (digit_value_not_minus c d Hc).
Qed.

(** *** The round trip *)

Lemma repr_digits_read (d k : Z) :
  0 < d ->
  ∃ D K,
    read_float_decimal
      (format_digits (strip_zeros (decimal_digits d))
         (k + Z.of_nat (String.length (decimal_digits d))) true)
    = Some (D, K) ∧
    ∀ p emin emax, emin <= 0 ->
      round_binary p emin emax (decimal_fraction D K).1 (decimal_fraction D K).2
      = round_binary p emin emax (decimal_fraction d k).1
          (decimal_fraction d k).2.
Proof.
  intros Hd. destruct (decimal_digits_spec d ltac:(lia)) as (Hds & Hv & _).
  destruct (strip_zeros_spec (decimal_digits d)) as [z Hstrip].
  set (ds := decimal_digits d) in *. set (ds' := strip_zeros ds) in *.
  assert (Hds' : digits_only ds' = true).
  { rewrite Hstrip, digits_only_app in Hds. by apply andb_true_iff in Hds as []. }
  assert (Hval : d = digits_value 0 ds' * 10 ^ Z.of_nat z).
  { rewrite <- Hv, Hstrip, (digits_value_app _ _ _ Hds').
    apply digits_value_zeros. }
  assert (Hne : ds' ≠ EmptyString).
  { intros Heq. rewrite Heq in Hval. simpl in Hval. lia. }
  assert (Hlen : Z.of_nat (String.length ds)
                 = Z.of_nat (String.length ds') + Z.of_nat z).
  { rewrite Hstrip at 1. rewrite length_append, length_zeros. lia. }
  destruct (format_digits_read ds' (k + Z.of_nat (String.length ds)) Hds' Hne)
    as (D & K & j & Hread & Hj & HD & HK).
  exists D, K. split; [exact Hread |].
  intros p emin emax Hemin.
  rewrite HD, Hval.
  rewrite (round_binary_decimal_shift _ _ _ _ K j) by lia.
  rewrite (round_binary_decimal_shift _ _ _ _ k (Z.of_nat z)) by lia.
  by replace (K + j) with (k + Z.of_nat z) by lia.
Qed.

Lemma round_decimal_zero (k : Z) : round_decimal 0 k = Some (0, -1074).
Proof.
  rewrite round_decimal_alt.
  apply round_binary64_exact; [done | apply decimal_fraction_pos |].
  unfold decimal_fraction. destruct (0 <=? k); cbn [fst snd]; [| done].
  by rewrite !Z.mul_0_l.
Qed.

(** What [str] writes for a finite float, without the sign. *)
Lemma format_float_finite (negative : bool) (m e : Z) :
  binary64 m e = true ->
  ∃ body D K,
    str_float (ast.Ffinite negative m e)
    = (if negative then "-" else EmptyString) +:+ body ∧
    read_float_decimal body = Some (D, K) ∧
    round_decimal D K = Some (m, e) ∧
    ∀ m32 e32, narrow m e = Some (m32, e32) ->
      round_binary32 (decimal_fraction D K).1 (decimal_fraction D K).2
      = Some (m32, e32).
Proof.
  intros Hb. unfold str_float, format_float.
  destruct (Z.eqb_spec m 0) as [-> | Hm].
  - assert (e = -1074) as ->
      by (apply binary64_bounds in Hb as (_ & _ & [? | ?]); [lia | done]).
    exists "0.0", 0, (-1).
    split; [done |]. split; [done |]. split; [done |].
    intros m32 e32 [= <- <-]. done.
  - destruct (shortest_decimal m e) as [d k] eqn:Hshort.
    apply (shortest_decimal_reads_back m e d k Hb) in Hshort as [Hd Hround].
    assert (Hpos : 0 < d).
    { destruct (decide (d = 0)) as [-> |]; [| lia].
      rewrite round_decimal_zero in Hround. congruence. }
    destruct (repr_digits_read d k Hpos) as (D & K & Hread & Hsame).
    eexists _, D, K. split; [reflexivity |]. split; [exact Hread |].
    rewrite round_decimal_alt in Hround |- *.
    split.
    + unfold round_binary64. rewrite Hsame by lia. exact Hround.
    + intros m32 e32 Hnarrow.
      apply (round_binary32_of_64 m e); [done | done | apply decimal_fraction_pos |].
      unfold round_binary64. rewrite Hsame by lia. exact Hround.
Qed.

Lemma split_sign_body (negative : bool) (body : string) (dk : Z * Z) :
  read_float_decimal body = Some dk ->
  split_sign ((if negative then "-" else EmptyString) +:+ body)
  = (negative, body).
Proof.
  intros Hread. destruct negative; [done |].
  exact (read_float_decimal_unsigned body dk Hread).
Qed.

Lemma read_f64_str_float (negative : bool) (m e : Z) :
  binary64 m e = true ->
  read_f64 (str_float (ast.Ffinite negative m e))
  = Some (ast.Ffinite negative m e).
Proof.
  intros Hb.
  destruct (format_float_finite negative m e Hb)
    as (body & D & K & -> & Hread & Hround & _).
  unfold read_f64.
  by rewrite (split_sign_body _ _ _ Hread), Hread, Hround.
Qed.

Lemma read_f32_str_float (negative : bool) (m e : Z) :
  binary64 m e = true -> is_Some (narrow m e) ->
  read_f32 (str_float (ast.Ffinite negative m e))
  = Some (ast.Ffinite negative m e).
Proof.
  intros Hb [[m32 e32] Hnarrow].
  destruct (format_float_finite negative m e Hb)
    as (body & D & K & -> & Hread & _ & Hround).
  unfold read_f32.
  rewrite (split_sign_body _ _ _ Hread), Hread.
  destruct (decimal_fraction D K) as [num den] eqn:Hfrac.
  cbn [fst snd] in Hround.
  by rewrite (Hround _ _ Hnarrow), (widen_narrow _ _ _ _ Hb Hnarrow).
Qed.

(** The text of an integer: a minus sign for a negative one, and the digits
    of its magnitude. *)
Lemma string_of_int_digits (n : Z) :
  DecimalString.NilZero.string_of_int (Z.to_int n)
  = (if n <? 0 then "-" else EmptyString) +:+ decimal_digits (Z.abs n).
Proof. by destruct n. Qed.

Lemma in_range_bound (signed : bool) (w : int_width) (n : Z) :
  in_range signed w n = true -> Z.abs n <= 2 ^ 128.
Proof.
  unfold in_range.
  destruct signed, w; cbn [width_bits]; rewrite andb_true_iff; lia.
Qed.

Lemma read_int_str_int (signed : bool) (w : int_width) (n : Z) :
  in_range signed w n = true ->
  ∃ text, str_int n = Ok text ∧ read_int signed w text = Some n.
Proof.
  intros Hrange. pose proof (in_range_bound _ _ _ Hrange) as Hbound.
  unfold str_int.
  assert (Hmax : 2 ^ 128 < int_max_str) by done.
  destruct (Z.leb_spec int_max_str (Z.abs n)) as [Hbig | _]; [lia |].
  eexists. split; [reflexivity |]. clear Hmax Hbound.
  rewrite string_of_int_digits.
  destruct (decimal_digits_spec (Z.abs n) ltac:(lia)) as (Hds & Hv & Hne).
  assert (Hread : read_dec_literal (decimal_digits (Z.abs n))
                  = Some (Z.abs n, Z.of_nat (String.length (decimal_digits (Z.abs n))),
                          EmptyString)).
  { rewrite <- (append_empty_r (decimal_digits (Z.abs n))) at 1.
    rewrite (read_dec_literal_app _ _ Hds Hne). cbn [read_digits].
    by rewrite Hv. }
  unfold read_int.
  destruct (Z.ltb_spec n 0) as [Hneg | Hpos].
  - change ("-" +:+ decimal_digits (Z.abs n))
      with (String "-" (decimal_digits (Z.abs n))).
    cbn [split_sign Ascii.eqb Bool.eqb]. rewrite Hread.
    replace (- Z.abs n) with n by lia. rewrite Hrange.
    destruct signed; [done |].
    unfold in_range in Hrange. apply andb_true_iff in Hrange. lia.
  - change (EmptyString +:+ decimal_digits (Z.abs n))
      with (decimal_digits (Z.abs n)).
    assert (Hsign : split_sign (decimal_digits (Z.abs n))
                    = (false, decimal_digits (Z.abs n))).
    { unfold read_dec_literal in Hread. unfold split_sign.
      destruct (decimal_digits (Z.abs n)) as [|c s]; [done |].
      destruct (digit_value c) as [d|] eqn:Hc; [| done].
      by rewrite (digit_value_not_minus c d Hc). }
    rewrite Hsign, Hread.
    replace (Z.abs n) with n by lia. by rewrite Hrange.
Qed.

(** C9, as amended.  A number that the type [ty] holds (an integer of the
    range of an integer type, a finite float for [f64], a finite float that
    is a binary32 number for [f32]) is rendered as a text, and that text,
    read as a literal of Rust at the type [ty], denotes that number. *)
Theorem visit_Num_round_trip (ty : rust_type) (n : ast.number) :
  representable ty n = true ->
  ∃ text,
    visit (ast.Constant (ast.CNum n)) = Ok (VStr text) ∧
    read_literal ty text = Some n.
Proof.
  intros Hrep.
  change (visit (ast.Constant (ast.CNum n)))
    with (text ← str_number n; Ok (VStr text)).
  destruct ty as [signed w | |], n as [z | [| | negative m e] |]; try done;
    cbn [representable] in Hrep.
  - destruct (read_int_str_int signed w z Hrep) as (text & Hstr & Hread).
    exists text. cbn [str_number]. rewrite Hstr. split; [done |].
    cbn [read_literal]. by rewrite Hread.
  - apply andb_true_iff in Hrep as [Hb Hn]. apply bool_decide_eq_true in Hn.
    eexists. split; [reflexivity |].
    cbn [read_literal]. by rewrite (read_f32_str_float _ _ _ Hb Hn).
  - eexists. split; [reflexivity |].
    cbn [read_literal]. by rewrite (read_f64_str_float _ _ _ Hrep).
Qed.

Lemma visit_Num_round_trip_witness :
  (representable (Tint true W32) (ast.NInt (-42)) = true ∧
   ∃ text,
     visit (ast.Constant (ast.CNum (ast.NInt (-42)))) = Ok (VStr text) ∧
     read_literal (Tint true W32) text = Some (ast.NInt (-42))) ∧
  (representable Tf64 (ast.NFloat (ast.Ffinite false 7205759403792794 (-56)))
   = true ∧
   ∃ text,
     visit (ast.Constant
              (ast.CNum (ast.NFloat (ast.Ffinite false 7205759403792794 (-56)))))
     = Ok (VStr text) ∧
     read_literal Tf64 text
     = Some (ast.NFloat (ast.Ffinite false 7205759403792794 (-56)))) ∧
  (representable Tf32 (ast.NFloat (ast.Ffinite true 6755399441055744 (-52)))
   = true ∧
   ∃ text,
     visit (ast.Constant
              (ast.CNum (ast.NFloat (ast.Ffinite true 6755399441055744 (-52)))))
     = Ok (VStr text) ∧
     read_literal Tf32 text
     = Some (ast.NFloat (ast.Ffinite true 6755399441055744 (-52)))).
Proof.
  split; [| split].
  - split; [reflexivity |].
    apply (visit_Num_round_trip (Tint true W32) (ast.NInt (-42))). reflexivity.
  - split; [reflexivity |].
    apply (visit_Num_round_trip Tf64
             (ast.NFloat (ast.Ffinite false 7205759403792794 (-56)))).
    reflexivity.
  - split; [reflexivity |].
    apply (visit_Num_round_trip Tf32
             (ast.NFloat (ast.Ffinite true 6755399441055744 (-52)))).
    reflexivity.
Defined.

(** C9 as stated fails in five ways.  The float infinity, the value of the
    literal [1e999], is rendered as [inf], and a complex number as [1j]:
    neither text is a literal of Rust, at any type.  An integer of 4301
    digits is not rendered at all: [str] raises [ValueError].  The integer
    [2 ^ 128] is rendered with its digits, which are beyond the range of
    every integer type.  And the float [0.1], rendered as [0.1], is read at
    [f32], the type [type_map] gives for [float], as another number. *)
Lemma visit_Num_not_always_a_literal :
  (visit (ast.Constant (ast.CNum (ast.NFloat (ast.Finf false))))
   = Ok (VStr "inf") ∧
   ∀ ty, read_literal ty "inf" = None) ∧
  (visit (ast.Constant
            (ast.CNum (ast.NComplex (ast.Ffinite false 0 (-1074))
                         (ast.Ffinite false 4503599627370496 (-52)))))
   = Ok (VStr "1j") ∧
   ∀ ty, read_literal ty "1j" = None) ∧
  visit (ast.Constant (ast.CNum (ast.NInt (10 ^ 4300)))) = Raise ValueError ∧
  (visit (ast.Constant (ast.CNum (ast.NInt (2 ^ 128))))
   = Ok (VStr "340282366920938463463374607431768211456") ∧
   ∀ ty, read_literal ty "340282366920938463463374607431768211456" = None) ∧
  (visit (ast.Constant
            (ast.CNum (ast.NFloat (ast.Ffinite false 7205759403792794 (-56)))))
   = Ok (VStr "0.1") ∧
   read_literal Tf32 "0.1"
   = Some (ast.NFloat (ast.Ffinite false 7205759511166976 (-56)))).
Proof.
  repeat split; try (intros [[] [] | |]); by vm_compute.
Qed.

(** * Further properties of the visitor *)

(** ** Induction on trees *)

(** Structural induction on a tree, with the hypothesis available for every
    visited child. *)
Lemma node_visited_ind (P : ast.node -> Prop) :
  (∀ n, Forall P (visited_children n) -> P n) ->
  ∀ n, P n.
Proof.
  intros step.
  fix IH 1. intros n. apply step.
  destruct n as [id ann | c | values | value | test body orelse | | |
                 | test body orelse | lhs ops comparators | op values
                 | lhs op rhs | op operand | target op value | name children];
    simpl; try (repeat constructor; apply IH).
  - induction values as [|[text | value conv spec] values IHv]; simpl;
      [constructor | exact IHv | constructor; [apply IH | exact IHv]].
  - destruct value; repeat constructor. apply IH.
  - constructor; [apply IH |]. apply Forall_app. split.
    + induction body; constructor; [apply IH | assumption].
    + induction orelse; constructor; [apply IH | assumption].
  - constructor; [apply IH |].
    induction body; constructor; [apply IH | assumption].
  - constructor; [apply IH |]. destruct comparators; repeat constructor.
    apply IH.
  - induction values; constructor; [apply IH | assumption].
  - induction children; constructor; [apply IH | assumption].
Qed.

(** ** Exceptions: where they come from, where they go *)

Lemma bind_Raise {A B : Type} (r : result A) (f : A -> result B) (e : exn) :
  (r ≫= f) = Raise e -> r = Raise e ∨ ∃ a, r = Ok a ∧ f a = Raise e.
Proof.
  intros H. destruct r as [a | e']; [right; eauto | left].
  change (@Raise B e' = Raise e) in H. by inversion H.
Qed.

Lemma bind_Raise_l {A B : Type} (f : A -> result B) (e : exn) :
  (Raise e ≫= f) = Raise e.
Proof. reflexivity. Qed.

Lemma mapM_Raise {A B : Type} (f : A -> result B) (l : list A) (e : exn) :
  mapM f l = Raise e -> ∃ x, x ∈ l ∧ f x = Raise e.
Proof.
  induction l as [|x l IH]; [done |]. rewrite mapM_cons. intros H.
  apply bind_Raise in H as [H | (y & _ & H)].
  - exists x. split; [left | done].
  - apply bind_Raise in H as [H | (ys & _ & H)]; [| done].
    destruct (IH H) as (x' & Hin & Hx'). exists x'. split; [by right | done].
Qed.

Lemma mapM_elem_Raise {A B : Type} (f : A -> result B) (l : list A)
    (x : A) (e : exn) :
  x ∈ l -> f x = Raise e -> ∃ e', mapM f l = Raise e'.
Proof.
  intros Hin Hx. induction Hin as [x l | x y l Hin IH]; rewrite mapM_cons.
  - rewrite Hx. eauto.
  - destruct (f y) as [b | e']; [| eauto].
    destruct (IH Hx) as [e' ->]. eauto.
Qed.

Lemma mapM_Forall_Ok {A B : Type} (f : A -> result B) (l : list A) :
  Forall (λ x, ∃ y, f x = Ok y) l -> ∃ ys, mapM f l = Ok ys.
Proof.
  induction 1 as [|x l [y Hy] _ [ys IH]]; [by exists [] |].
  exists (y :: ys). by rewrite mapM_cons, Hy, IH.
Qed.

Lemma formatted_values_mapM (f : ast.node -> result pyval)
    (values : list ast.fpart) :
  formatted_values f values = mapM f (inner_expressions values).
Proof.
  induction values as [|[text | value conv spec] values IH]; [done | done |].
  cbn [inner_expressions]. rewrite mapM_cons. simpl.
  unfold visit_FormattedValue. rewrite IH.
  destruct (f value); [| done]. by destruct (mapM f (inner_expressions values)).
Qed.

(** [str.join] fails in one way only. *)
Lemma str_join_Raise (sep : string) (items : list pyval) (e : exn) :
  str_join sep items = Raise e -> e = TypeError.
Proof.
  unfold str_join. destruct (mapM join_item items) eqn:Hm; [done |].
  intros [= <-]. apply mapM_Raise in Hm as (x & _ & Hx).
  destruct x; [done | by inversion Hx].
Qed.

Lemma str_join_None (sep : string) (items : list pyval) :
  VNone ∈ items -> str_join sep items = Raise TypeError.
Proof.
  intros Hin. unfold str_join.
  destruct (mapM_elem_Raise join_item items VNone TypeError Hin eq_refl)
    as [e He].
  rewrite He. f_equal.
  apply mapM_Raise in He as (x & _ & Hx). destruct x; [done | by inversion Hx].
Qed.

(** The loop of [visit_JoinedStr] fails only through [visit_FormatSpec]. *)
Lemma foldM_add_part_Raise (values : list ast.fpart) (response : string)
    (e : exn) :
  foldM add_part values response = Raise e ->
  e = IndexError ∨ e = AttributeError.
Proof.
  revert response.
  induction values as [|[text | value conv [[|[t | v c s] spec]|]] values IH];
    intros response; simpl; try done; try apply IH.
  - intros [= <-]. by left.
  - intros [= <-]. by right.
Qed.

Lemma visit_symbol_returns (t : ast.type) : ∃ v, visit_symbol t = Ok v.
Proof.
  unfold visit_symbol, c_symbol. destruct (symbols t); eauto.
Qed.

(** An exception of [visit] on a node is raised by the method of the node
    itself, which raises an [IndexError], an [AttributeError] or a
    [TypeError], by the conversion of an integer constant of more than 4300
    digits, or by the visit of a child. *)
Lemma visit_Raise_step (n : ast.node) (e : exn) :
  visit n = Raise e ->
  (e = IndexError ∨ e = AttributeError ∨ e = TypeError) ∨
  (e = ValueError ∧
   ∃ z, n = ast.Constant (ast.CNum (ast.NInt z)) ∧ int_max_str <= Z.abs z) ∨
  (∃ c, c ∈ visited_children n ∧ visit c = Raise e).
Proof.
  assert (∀ l, l ⊆ visited_children n -> mapM visit l = Raise e ->
            ∃ c, c ∈ visited_children n ∧ visit c = Raise e) as Hl.
  { intros l Hsub Hm. apply mapM_Raise in Hm as (x & Hx & Hr).
    exists x. split; [by apply Hsub | done]. }
  destruct n as [id ann | c | values | value | test body orelse | | |
                 | test body orelse | lhs ops comparators | op values
                 | lhs op rhs | op operand | target op value | name children].
  - simpl. unfold visit_Name. repeat case_decide; try done.
    destruct ann; [destruct (type_map !! id) |]; done.
  - destruct c as [| [|] | [z | f | re im] | | | | |]; try done.
    change (visit (ast.Constant (ast.CNum (ast.NInt z))))
      with (text ← str_int z; Ok (VStr text)).
    unfold str_int. destruct (int_max_str <=? Z.abs z) eqn:Hz; [| done].
    intros [= <-]. right. left. split; [done |]. exists z. split; [done | lia].
  - rewrite visit_JoinedStr_eq. unfold visit_JoinedStr.
    rewrite formatted_values_mapM. intros H.
    apply bind_Raise in H as [H | (vs & _ & H)];
      [right; right; by apply (Hl _ (reflexivity _)) |].
    apply bind_Raise in H as [H | (t & _ & H)].
    { apply foldM_add_part_Raise in H. left. tauto. }
    apply bind_Raise in H as [H | (a & _ & H)]; [| done].
    apply str_join_Raise in H. left. tauto.
  - destruct value as [value |]; [| done]. simpl. unfold visit_Return. intros H.
    apply bind_Raise in H as [H | (v & _ & H)]; [| done].
    right. right. exists value. split; [set_solver | done].
  - rewrite visit_If_eq. unfold visit_If. intros H.
    apply bind_Raise in H as [H | (t & _ & H)];
      [right; right; exists test; split; [set_solver | done] |].
    apply bind_Raise in H as [H | (bs & _ & H)];
      [right; right; apply (Hl body); [set_solver | done] |].
    apply bind_Raise in H as [H | (es & _ & H)];
      [right; right; apply (Hl orelse); [set_solver | done] |].
    apply bind_Raise in H as [H | (a & _ & H)]; [| done].
    apply str_join_Raise in H. left. tauto.
  - done.
  - done.
  - done.
  - simpl. unfold visit_While. intros H.
    apply bind_Raise in H as [H | (t & _ & H)];
      [right; right; exists test; split; [set_solver | done] |].
    apply bind_Raise in H as [H | (bs & _ & H)];
      [right; right; apply (Hl body); [set_solver | done] |].
    apply bind_Raise in H as [H | (a & _ & H)]; [| done].
    apply str_join_Raise in H. left. tauto.
  - rewrite visit_Compare_eq. unfold visit_Compare. intros H.
    apply bind_Raise in H as [H | (l & _ & H)];
      [right; right; exists lhs; split; [set_solver | done] |].
    apply bind_Raise in H as [H | (o & _ & H)].
    { destruct ops as [|o ops]; [inversion H; left; tauto |].
      destruct (visit_symbol_returns (ast.type_cmpop o)) as [v Hv].
      by rewrite Hv in H. }
    apply bind_Raise in H as [H | (r & _ & H)].
    { destruct comparators as [|c cs]; [inversion H; left; tauto |].
      right. right. exists c. split; [set_solver | done]. }
    by destruct ops as [|[] ops].
  - simpl. unfold visit_BoolOp. intros H.
    apply bind_Raise in H as [H | (o & _ & H)].
    { destruct (visit_symbol_returns (ast.type_boolop op)) as [v Hv].
      by rewrite Hv in H. }
    destruct o as [sep |]; [| inversion H; left; tauto].
    apply bind_Raise in H as [H | (vs & _ & H)];
      [right; right; apply (Hl values); [set_solver | done] |].
    apply bind_Raise in H as [H | (a & _ & H)]; [| done].
    apply str_join_Raise in H. left. tauto.
  - rewrite visit_BinOp_eq. intros H.
    assert ((l ← visit lhs; o ← visit_symbol (ast.type_operator op);
             r ← visit rhs; Ok VNone) = Raise e
            ∨ (l ← visit lhs; r ← visit rhs; Ok VNone) = Raise e) as [H' | H'].
    { unfold visit_BinOp in H. destruct op;
        (destruct (visit lhs); [| by left]);
        rewrite ?bind_Ok in *;
        try (destruct (visit_symbol _); [| by left]);
        rewrite ?bind_Ok in *;
        (destruct (visit rhs); [| by left]); done. }
    + apply bind_Raise in H' as [H' | (l & _ & H')];
        [right; right; exists lhs; split; [set_solver | done] |].
      apply bind_Raise in H' as [H' | (o & _ & H')].
      { destruct (visit_symbol_returns (ast.type_operator op)) as [v Hv].
        by rewrite Hv in H'. }
      apply bind_Raise in H' as [H' | (r & _ & H')]; [| done].
      right. right. exists rhs. split; [set_solver | done].
    + apply bind_Raise in H' as [H' | (l & _ & H')];
        [right; right; exists lhs; split; [set_solver | done] |].
      apply bind_Raise in H' as [H' | (r & _ & H')]; [| done].
      right. right. exists rhs. split; [set_solver | done].
  - rewrite visit_UnaryOp_eq. unfold visit_UnaryOp. intros H.
    apply bind_Raise in H as [H | (o & _ & H)].
    { destruct (visit_symbol_returns (ast.type_unaryop op)) as [v Hv].
      by rewrite Hv in H. }
    apply bind_Raise in H as [H | (v & _ & H)]; [| done].
    right. right. exists operand. split; [set_solver | done].
  - simpl. unfold visit_AugAssign. intros H.
    apply bind_Raise in H as [H | (t & _ & H)];
      [right; right; exists target; split; [set_solver | done] |].
    apply bind_Raise in H as [H | (o & _ & H)].
    { destruct (visit_symbol_returns (ast.type_operator op)) as [v Hv].
      by rewrite Hv in H. }
    apply bind_Raise in H as [H | (v & _ & H)]; [| done].
    right. right. exists value. split; [set_solver | done].
  - rewrite visit_Other_eq. unfold generic_visit. intros H.
    apply bind_Raise in H as [H | (vs & _ & H)]; [| done].
    right. right. apply (Hl children); [set_solver | done].
Qed.

(** No tree makes [visit] raise a [KeyError]. *)
Lemma visit_not_KeyError (n : ast.node) (t : ast.type) :
  visit n ≠ Raise (KeyError t).
Proof.
  induction n as [n IH] using node_visited_ind. intros H.
  apply visit_Raise_step in H as [H | [[H _] | (c & Hin & Hc)]].
  - destruct H as [H | [H | H]]; discriminate H.
  - discriminate H.
  - rewrite Forall_forall in IH. by apply (IH c Hin).
Qed.

(** C2, as amended.  [c_symbol] raises a [KeyError] naming the class for
    every class that is not a key of [symbols]; [visit] calls it for keys
    only, and no translation raises a [KeyError].  A node of a class without
    a method goes to the inherited traversal: when its children are all
    visited without failure, the result is [None], with no failure and no
    text.  An operator that is not a key is answered [None] as well: when
    the operands are visited without failure, the binary node (for an
    operator other than the exponentiation, which has a rule of its own),
    the unary node and the comparison node (on its first operator and
    comparator) print the word [None] where the operator token would
    stand. *)
Theorem unmapped_kinds_yield_None :
  (∀ t, symbols t = None -> c_symbol t = Raise (KeyError t)) ∧
  (∀ n t, visit n ≠ Raise (KeyError t)) ∧
  (∀ name children vs,
     mapM visit children = Ok vs ->
     visit (ast.Other name children) = Ok VNone) ∧
  (∀ l op r vl vr,
     op ≠ ast.Pow -> symbols (ast.type_operator op) = None ->
     visit l = Ok vl -> visit r = Ok vr ->
     visit (ast.BinOp l op r)
     = Ok (VStr ("(" +:+ format_arg vl +:+ " " +:+ "None" +:+ " "
                  +:+ format_arg vr +:+ ")"))) ∧
  (∀ op e v,
     symbols (ast.type_unaryop op) = None -> visit e = Ok v ->
     visit (ast.UnaryOp op e) = Ok (VStr ("None" +:+ format_arg v))) ∧
  (∀ l op c os cs vl vc,
     symbols (ast.type_cmpop op) = None ->
     visit l = Ok vl -> visit c = Ok vc ->
     visit (ast.Compare l (op :: os) (c :: cs))
     = Ok (VStr (format_arg vl +:+ " " +:+ "None" +:+ " " +:+ format_arg vc))).
Proof.
  split; [| split; [| split; [| split; [| split]]]].
  - intros t Ht. unfold c_symbol. by rewrite Ht.
  - apply visit_not_KeyError.
  - intros name children vs Hvs. rewrite visit_Other_eq.
    unfold generic_visit. by rewrite Hvs.
  - intros l op r vl vr HPow Hop Hl Hr. rewrite visit_BinOp_eq.
    apply (visit_BinOp_spaced visit l r vl vr Hl Hr op VNone);
      [done | by intros -> | by intros -> | by apply visit_symbol_None].
  - intros op e v Hop He. rewrite visit_UnaryOp_eq. unfold visit_UnaryOp.
    by rewrite (visit_symbol_None _ Hop), He.
  - intros l op c os cs vl vc Hop Hl Hc. rewrite visit_Compare_eq.
    unfold visit_Compare. rewrite Hl, Hc, (visit_symbol_None _ Hop).
    by destruct op.
Qed.

Lemma unmapped_kinds_yield_None_witness :
  c_symbol (ast.type_operator ast.MatMult)
  = Raise (KeyError (ast.type_operator ast.MatMult)) ∧
  visit (ast.Other "Call" [ast.Name "f" false; ast.Name "x" false]) = Ok VNone ∧
  visit (ast.BinOp (ast.Name "a" false) ast.MatMult (ast.Name "b" false))
  = Ok (VStr "(a None b)") ∧
  visit (ast.UnaryOp ast.Invert (ast.Name "a" false)) = Ok (VStr "Nonea") ∧
  visit (ast.Compare (ast.Name "a" false) [ast.NotIn] [ast.Name "b" false])
  = Ok (VStr "a None b").
Proof.
  destruct unmapped_kinds_yield_None
    as (Hkey & _ & Hother & Hbin & Hun & Hcmp).
  split; [apply Hkey; reflexivity |].
  split; [apply (Hother _ _ [VStr "f"; VStr "x"]); reflexivity |].
  split; [apply (Hbin _ _ _ (VStr "a") (VStr "b"));
          [discriminate | reflexivity | reflexivity | reflexivity] |].
  split; [apply (Hun _ _ (VStr "a")); reflexivity |].
  apply (Hcmp _ _ _ _ _ (VStr "a") (VStr "b")); reflexivity.
Defined.

(** X1.  The exceptions of a translation: an [IndexError], an
    [AttributeError] or a [TypeError] raised by a method, or the
    [ValueError] of the conversion of an integer constant of more than 4300
    digits that the visit comes to.  No tree makes [visit] raise a
    [KeyError]. *)
Theorem visit_exceptions (n : ast.node) (e : exn) :
  visit n = Raise e ->
  (e = IndexError ∨ e = AttributeError ∨ e = TypeError) ∨
  (e = ValueError ∧
   ∃ z, reaches n (ast.Constant (ast.CNum (ast.NInt z)))
        ∧ int_max_str <= Z.abs z).
Proof.
  revert e. induction n as [n IH] using node_visited_ind. intros e H.
  apply visit_Raise_step in H as [H | [[-> (z & -> & Hz)] | (c & Hin & Hc)]].
  - by left.
  - right. split; [done |]. exists z. split; [apply reaches_here | done].
  - rewrite Forall_forall in IH.
    destruct (IH c Hin e Hc) as [H | [-> (z & Hreach & Hz)]]; [by left |].
    right. split; [done |]. exists z. split; [| done].
    by apply (reaches_child n c).
Qed.

Lemma visit_exceptions_witness :
  visit (ast.Return (Some (ast.Constant (ast.CNum (ast.NInt int_max_str)))))
  = Raise ValueError ∧
  ((ValueError = IndexError ∨ ValueError = AttributeError
    ∨ ValueError = TypeError) ∨
   (ValueError = ValueError ∧
    ∃ z, reaches
           (ast.Return (Some (ast.Constant (ast.CNum (ast.NInt int_max_str)))))
           (ast.Constant (ast.CNum (ast.NInt z)))
         ∧ int_max_str <= Z.abs z)).
Proof.
  assert (visit (ast.Return
                   (Some (ast.Constant (ast.CNum (ast.NInt int_max_str)))))
          = Raise ValueError) as H by (by vm_compute).
  split; [exact H |].
  exact (visit_exceptions _ ValueError H).
Defined.

(** When the result at the head of a chain of calls is known, or is a
    failure, the whole chain fails. *)
Ltac through r :=
  let E := fresh "E" in
  destruct r eqn:E; [rewrite ?bind_Ok | by eauto].

Lemma visited_child_raises (n c : ast.node) (e : exn) :
  c ∈ visited_children n -> visit c = Raise e -> ∃ e', visit n = Raise e'.
Proof.
  intros Hin Hc.
  assert (∀ l, c ∈ l -> ∃ e', mapM visit l = Raise e') as Hl
    by (intros l Hl; by apply (mapM_elem_Raise visit l c e)).
  destruct n as [id ann | k | values | value | test body orelse | | |
                 | test body orelse | lhs ops comparators | op values
                 | lhs op rhs | op operand | target op value | name children];
    simpl in Hin; try (by apply elem_of_nil in Hin).
  - rewrite visit_JoinedStr_eq. unfold visit_JoinedStr.
    rewrite formatted_values_mapM. destruct (Hl _ Hin) as [e' ->]. eauto.
  - destruct value as [value |]; [| by apply elem_of_nil in Hin].
    apply list_elem_of_singleton in Hin as ->. simpl. unfold visit_Return.
    rewrite Hc. eauto.
  - rewrite visit_If_eq. unfold visit_If.
    apply elem_of_cons in Hin as [-> | Hin]; [rewrite Hc; eauto |].
    through (visit test).
    apply elem_of_app in Hin as [Hin | Hin].
    + destruct (Hl _ Hin) as [e' ->]. eauto.
    + through (mapM visit body). destruct (Hl _ Hin) as [e' ->]. eauto.
  - change (visit (ast.While test body orelse))
      with (visit_While visit test body). unfold visit_While.
    apply elem_of_cons in Hin as [-> | Hin]; [rewrite Hc; eauto |].
    through (visit test). destruct (Hl _ Hin) as [e' ->]. eauto.
  - rewrite visit_Compare_eq. unfold visit_Compare.
    apply elem_of_cons in Hin as [-> | Hin]; [rewrite Hc; eauto |].
    through (visit lhs).
    destruct comparators as [|c' cs]; [by apply elem_of_nil in Hin |].
    apply list_elem_of_singleton in Hin as ->.
    destruct ops as [|o ops]; [eauto |].
    destruct (visit_symbol_returns (ast.type_cmpop o)) as [v ->].
    rewrite bind_Ok, Hc. eauto.
  - change (visit (ast.BoolOp op values)) with (visit_BoolOp visit op values).
    unfold visit_BoolOp.
    destruct (visit_symbol_returns (ast.type_boolop op)) as [v ->].
    rewrite bind_Ok. destruct v; [| eauto].
    destruct (Hl _ Hin) as [e' ->]. eauto.
  - rewrite visit_BinOp_eq. unfold visit_BinOp.
    destruct (visit_symbol_returns (ast.type_operator op)) as [v Hv].
    apply elem_of_cons in Hin as [-> | Hin].
    + rewrite Hc. destruct op; eauto.
    + apply list_elem_of_singleton in Hin as ->.
      destruct (visit lhs); [| destruct op; eauto].
      rewrite Hv, Hc. destruct op; eauto.
  - rewrite visit_UnaryOp_eq. unfold visit_UnaryOp.
    apply list_elem_of_singleton in Hin as ->.
    destruct (visit_symbol_returns (ast.type_unaryop op)) as [v ->].
    rewrite bind_Ok, Hc. eauto.
  - change (visit (ast.AugAssign target op value))
      with (visit_AugAssign visit target op value). unfold visit_AugAssign.
    destruct (visit_symbol_returns (ast.type_operator op)) as [v Hv].
    apply elem_of_cons in Hin as [-> | Hin]; [rewrite Hc; eauto |].
    apply list_elem_of_singleton in Hin as ->.
    through (visit target). rewrite Hv, bind_Ok, Hc. eauto.
  - rewrite visit_Other_eq. unfold generic_visit.
    destruct (Hl _ Hin) as [e' ->]. eauto.
Qed.

(** X2.  No method catches an exception: when the visit of a tree comes to
    a node whose translation raises, the translation of the whole tree
    raises. *)
Theorem exception_aborts_enclosing_translation (n d : ast.node) (e : exn) :
  reaches n d -> visit d = Raise e -> ∃ e', visit n = Raise e'.
Proof.
  induction 1 as [n | n c d Hin _ IH]; intros Hd; [eauto |].
  destruct (IH Hd) as [e' He']. by apply (visited_child_raises n c e').
Qed.

Lemma exception_aborts_enclosing_translation_witness :
  reaches
    (ast.If (ast.Name "c" false)
       [ast.Return (Some (ast.Compare (ast.Name "a" false) [] []))] [])
    (ast.Compare (ast.Name "a" false) [] []) ∧
  visit (ast.Compare (ast.Name "a" false) [] []) = Raise IndexError ∧
  ∃ e', visit
          (ast.If (ast.Name "c" false)
             [ast.Return (Some (ast.Compare (ast.Name "a" false) [] []))] [])
        = Raise e'.
Proof.
  assert (reaches
    (ast.If (ast.Name "c" false)
       [ast.Return (Some (ast.Compare (ast.Name "a" false) [] []))] [])
    (ast.Compare (ast.Name "a" false) [] [])) as Hreach.
  { eapply reaches_child; [simpl; right; left |].
    eapply reaches_child; [simpl; left |]. apply reaches_here. }
  split; [exact Hreach |]. split; [reflexivity |].
  apply (exception_aborts_enclosing_translation _ _ IndexError Hreach).
  reflexivity.
Defined.

(** ** Trees that always translate *)

Lemma mapM_text {A : Type} (f : A -> result pyval) (l : list A) :
  Forall (λ x, ∃ s, f x = Ok (VStr s)) l ->
  ∃ ss, mapM f l = Ok (VStr <$> ss).
Proof.
  induction 1 as [|x l [s Hs] _ [ss IH]]; [by exists [] |].
  exists (s :: ss). by rewrite mapM_cons, Hs, IH.
Qed.

Lemma forallb_Forall {A : Type} (f : A -> bool) (l : list A) :
  forallb f l = true -> Forall (λ x, f x = true) l.
Proof.
  induction l as [|x l IH]; [constructor |]. simpl.
  intros [Hx Hl]%andb_prop. constructor; [done | by apply IH].
Qed.

Lemma Forall_covered_text (l children : list ast.node) :
  Forall (λ c, covered c = true -> ∃ s, visit c = Ok (VStr s)) children ->
  l ⊆ children ->
  forallb covered l = true ->
  ∃ ss, mapM visit l = Ok (VStr <$> ss).
Proof.
  intros IH Hsub Hcov. apply mapM_text.
  apply forallb_Forall in Hcov. rewrite Forall_forall in *.
  intros x Hx. apply IH; [by apply Hsub | by apply Hcov].
Qed.

Lemma covered_parts_described (values : list ast.fpart) :
  covered (ast.JoinedStr values) = true ->
  Forall (λ c, covered c = true -> ∃ s, visit c = Ok (VStr s))
    (inner_expressions values) ->
  ∃ segs, Forall2 describes segs values.
Proof.
  induction values as [|[text | value conv spec] values IHv]; intros Hcov IH.
  - exists []. constructor.
  - destruct (IHv Hcov IH) as [segs Hsegs].
    exists (Literal text :: segs). constructor; [constructor | done].
  - simpl in Hcov. apply andb_prop in Hcov as [Hcov Hrest].
    apply andb_prop in Hcov as [Hvalue Hspec].
    cbn [inner_expressions] in IH. apply Forall_cons in IH as [Hv IH].
    destruct (IHv Hrest IH) as [segs Hsegs].
    destruct (Hv Hvalue) as [s Hs].
    destruct spec as [[|[t | v c sp] more]|]; try done.
    + exists (Expression value s (Some t) :: segs).
      constructor; [by constructor | done].
    + exists (Expression value s None :: segs).
      constructor; [by constructor | done].
Qed.

(** X3.  A tree made only of the nodes the class has a method for, with
    constants that have a text, comparisons that have an operator and a
    comparator, and specifiers that open with literal text, always
    translates: [visit] returns a string, not [None] and not an
    exception. *)
Theorem covered_tree_translates (n : ast.node) :
  covered n = true -> ∃ text, visit n = Ok (VStr text).
Proof.
  induction n as [n IH] using node_visited_ind.
  assert (∀ c, c ∈ visited_children n -> covered c = true ->
            ∃ s, visit c = Ok (VStr s)) as Hc.
  { intros c Hin. rewrite Forall_forall in IH. by apply IH. }
  destruct n as [id ann | k | values | value | test body orelse | | |
                 | test body orelse | lhs ops comparators | op values
                 | lhs op rhs | op operand | target op value | name children];
    intros Hcov.
  - simpl. unfold visit_Name. repeat case_decide; eauto.
    destruct ann; [destruct (type_map !! id) |]; eauto.
  - destruct k as [| [|] | [z | f | re im] | s | | | |]; try done;
      try (simpl; by eauto).
    simpl in Hcov. apply Z.ltb_lt in Hcov.
    change (visit (ast.Constant (ast.CNum (ast.NInt z))))
      with (text ← str_int z; Ok (VStr text)).
    unfold str_int. destruct (int_max_str <=? Z.abs z) eqn:Hz; [lia |].
    rewrite bind_Ok. eauto.
  - destruct (covered_parts_described values Hcov IH) as [segs Hsegs].
    rewrite visit_JoinedStr_eq. unfold visit_JoinedStr.
    rewrite (formatted_values_arguments _ _ Hsegs), bind_Ok.
    rewrite (foldM_add_part_template _ _ Hsegs), bind_Ok.
    rewrite str_join_strings, bind_Ok. eauto.
  - destruct value as [value |]; [| simpl; eauto].
    destruct (Hc value) as [s Hs]; [set_solver | done |].
    simpl. unfold visit_Return. rewrite Hs. eauto.
  - simpl in Hcov. apply andb_prop in Hcov as [Hcov Horelse].
    apply andb_prop in Hcov as [Htest Hbody].
    destruct (Hc test) as [t Ht]; [set_solver | done |].
    destruct (Forall_covered_text body _ IH) as [bs Hbs];
      [set_solver | done |].
    destruct (Forall_covered_text orelse _ IH) as [es Hes];
      [set_solver | done |].
    rewrite visit_If_eq. unfold visit_If. rewrite Ht, Hbs, Hes, !bind_Ok.
    change [VStr "}"] with (VStr <$> ["}"]).
    change [VStr "} else {"] with (VStr <$> ["} else {"]).
    change [VStr ("if " +:+ format_arg (VStr t) +:+ " {")]
      with (VStr <$> ["if " +:+ format_arg (VStr t) +:+ " {"]).
    destruct es as [|e es].
    + rewrite fmap_nil, <- !fmap_app, str_join_strings. eauto.
    + rewrite fmap_cons, <- (fmap_cons VStr e es), <- !fmap_app,
        str_join_strings. eauto.
  - simpl. eauto.
  - simpl. eauto.
  - simpl. eauto.
  - simpl in Hcov. apply andb_prop in Hcov as [Htest Hbody].
    destruct (Hc test) as [t Ht]; [set_solver | done |].
    destruct (Forall_covered_text body _ IH) as [bs Hbs];
      [set_solver | done |].
    change (visit (ast.While test body orelse))
      with (visit_While visit test body). unfold visit_While.
    rewrite Ht, Hbs, !bind_Ok.
    change [VStr "}"] with (VStr <$> ["}"]).
    change [VStr ("while " +:+ format_arg (VStr t) +:+ " {")]
      with (VStr <$> ["while " +:+ format_arg (VStr t) +:+ " {"]).
    rewrite <- !fmap_app, str_join_strings. eauto.
  - destruct ops as [|o ops]; [done |].
    destruct comparators as [|c cs]; [done |].
    simpl in Hcov. apply andb_prop in Hcov as [Hlhs Hcmp].
    destruct (Hc lhs) as [l Hl]; [set_solver | done |].
    destruct (Hc c) as [r Hr]; [set_solver | done |].
    rewrite visit_Compare_eq. unfold visit_Compare.
    destruct (visit_symbol_returns (ast.type_cmpop o)) as [v Hv].
    rewrite Hl, Hv, Hr, !bind_Ok. destruct o; eauto.
  - simpl in Hcov.
    destruct (Forall_covered_text values _ IH) as [vs Hvs];
      [set_solver | done |].
    change (visit (ast.BoolOp op values)) with (visit_BoolOp visit op values).
    unfold visit_BoolOp. rewrite Hvs.
    destruct op; simpl; rewrite str_join_strings; eauto.
  - simpl in Hcov. apply andb_prop in Hcov as [Hlhs Hrhs].
    destruct (Hc lhs) as [l Hl]; [set_solver | done |].
    destruct (Hc rhs) as [r Hr]; [set_solver | done |].
    rewrite visit_BinOp_eq. unfold visit_BinOp.
    destruct (visit_symbol_returns (ast.type_operator op)) as [v Hv].
    rewrite Hl, Hv, Hr. destruct op; eauto.
  - simpl in Hcov.
    destruct (Hc operand) as [s Hs]; [set_solver | done |].
    rewrite visit_UnaryOp_eq. unfold visit_UnaryOp.
    destruct (visit_symbol_returns (ast.type_unaryop op)) as [v Hv].
    rewrite Hv, Hs. eauto.
  - simpl in Hcov. apply andb_prop in Hcov as [Htarget Hvalue].
    destruct (Hc target) as [t Ht]; [set_solver | done |].
    destruct (Hc value) as [s Hs]; [set_solver | done |].
    change (visit (ast.AugAssign target op value))
      with (visit_AugAssign visit target op value). unfold visit_AugAssign.
    destruct (visit_symbol_returns (ast.type_operator op)) as [v Hv].
    rewrite Ht, Hv, Hs. eauto.
  - done.
Qed.

Lemma covered_tree_translates_witness :
  covered
    (ast.If (ast.BoolOp ast.Or [ast.Name "a" false; ast.Name "b" false])
       [ast.AugAssign (ast.Name "x" false) ast.Add
          (ast.Constant (ast.CNum (ast.NInt 1)))]
       [ast.Return (Some (ast.UnaryOp ast.USub (ast.Name "x" false)))])
  = true ∧
  ∃ text,
    visit
      (ast.If (ast.BoolOp ast.Or [ast.Name "a" false; ast.Name "b" false])
         [ast.AugAssign (ast.Name "x" false) ast.Add
            (ast.Constant (ast.CNum (ast.NInt 1)))]
         [ast.Return (Some (ast.UnaryOp ast.USub (ast.Name "x" false)))])
    = Ok (VStr text).
Proof.
  split; [reflexivity |].
  apply (covered_tree_translates
           (ast.If (ast.BoolOp ast.Or [ast.Name "a" false; ast.Name "b" false])
              [ast.AugAssign (ast.Name "x" false) ast.Add
                 (ast.Constant (ast.CNum (ast.NInt 1)))]
              [ast.Return (Some (ast.UnaryOp ast.USub (ast.Name "x" false)))])).
  reflexivity.
Defined.

(** ** Identifiers and the reserved words *)

Lemma elem_of_rust_keywords (id : string) :
  id ∈ rust_keywords ↔
  id ∈ [ "struct"; "type"; "match"; "impl"; "const"; "enum"; "extern"; "fn";
         "loop"; "move"; "mut"; "pub"; "ref"; "trait"; "where"; "use";
         "unsafe" ].
Proof. unfold rust_keywords. by rewrite elem_of_list_to_set. Qed.

(** A reserved word with the suffix is not a reserved word. *)
Lemma suffixed_keyword_not_keyword (id : string) :
  id ∈ rust_keywords -> id +:+ "_" ∉ rust_keywords.
Proof.
  rewrite elem_of_rust_keywords. intros Hid.
  repeat (apply elem_of_cons in Hid as [-> | Hid]);
    [.. | by apply elem_of_nil in Hid];
    rewrite elem_of_rust_keywords, !elem_of_cons, elem_of_nil;
    intros H; repeat (destruct H as [H | H]; [discriminate H |]); done.
Qed.

Lemma suffixed_keyword_not_constant (id : string) :
  id ∈ rust_keywords -> id +:+ "_" ∉ builtin_constants.
Proof.
  rewrite elem_of_rust_keywords. intros Hid.
  repeat (apply elem_of_cons in Hid as [-> | Hid]);
    [.. | by apply elem_of_nil in Hid];
    rewrite elem_of_builtin_constants; intros [H | H]; discriminate H.
Qed.

Lemma suffixed_keyword_not_type (id : string) :
  id ∈ rust_keywords -> type_map !! (id +:+ "_") = None.
Proof.
  rewrite elem_of_rust_keywords. intros Hid.
  repeat (apply elem_of_cons in Hid as [-> | Hid]);
    [.. | by apply elem_of_nil in Hid]; by vm_compute.
Qed.

Lemma type_map_values (id t : string) :
  type_map !! id = Some t -> t ∈ [ "i32"; "f32"; "&[u8]"; "&str" ].
Proof.
  unfold type_map. intros H. apply elem_of_list_to_map_2 in H.
  repeat (apply elem_of_cons in H as [[= -> ->] | H]);
    [.. | by apply elem_of_nil in H];
    rewrite !elem_of_cons; tauto.
Qed.

(** X4.  Whatever the identifier, its translation is a string that is not
    one of the reserved words: the suffix takes a reserved word out of the
    set, and neither the boolean literals nor the mapped types are in it. *)
Theorem visit_Name_never_a_keyword (id : string) (is_annotation : bool) :
  ∃ text,
    visit (ast.Name id is_annotation) = Ok (VStr text) ∧
    text ∉ rust_keywords.
Proof.
  rewrite visit_Name_eq. unfold visit_Name.
  destruct (decide (id ∈ builtin_constants)) as [Hb | Hb].
  { eexists. split; [done |].
    apply elem_of_builtin_constants in Hb as [-> | ->];
      rewrite elem_of_rust_keywords, !elem_of_cons, elem_of_nil;
      intros H; repeat (destruct H as [H | H]; [discriminate H |]); done. }
  destruct (decide (id ∈ rust_keywords)) as [Hk | Hk].
  { eexists. split; [done |]. by apply suffixed_keyword_not_keyword. }
  destruct is_annotation; [| by eauto].
  destruct (type_map !! id) as [t |] eqn:Ht; [| by eauto].
  eexists. split; [done |].
  apply type_map_values in Ht.
  repeat (apply elem_of_cons in Ht as [-> | Ht]);
    [.. | by apply elem_of_nil in Ht];
    rewrite elem_of_rust_keywords, !elem_of_cons, elem_of_nil;
    intros H; repeat (destruct H as [H | H]; [discriminate H |]); done.
Qed.

(** X5.  The suffix makes two identifiers meet: a reserved word and the
    same word already followed by [_] are different identifiers with the
    same translation, so [visit_Name] is not injective. *)
Theorem keyword_suffix_collides (id : string) (is_annotation : bool) :
  id ∈ rust_keywords ->
  id ≠ id +:+ "_" ∧
  visit (ast.Name id is_annotation)
  = visit (ast.Name (id +:+ "_") is_annotation) ∧
  visit (ast.Name id is_annotation) = Ok (VStr (id +:+ "_")).
Proof.
  intros Hk.
  assert (id ∉ builtin_constants) as Hb.
  { rewrite elem_of_builtin_constants. apply elem_of_rust_keywords in Hk.
    repeat (apply elem_of_cons in Hk as [-> | Hk]);
      [.. | by apply elem_of_nil in Hk]; intros [H | H]; discriminate H. }
  assert (visit (ast.Name id is_annotation) = Ok (VStr (id +:+ "_"))) as Hid.
  { rewrite visit_Name_eq. unfold visit_Name.
    by rewrite decide_False, decide_True. }
  split; [| split; [| exact Hid]].
  - intros Heq. apply (f_equal String.length) in Heq.
    rewrite length_append in Heq. simpl in Heq. lia.
  - rewrite Hid, visit_Name_eq. unfold visit_Name.
    rewrite decide_False by by apply suffixed_keyword_not_constant.
    rewrite decide_False by by apply suffixed_keyword_not_keyword.
    rewrite suffixed_keyword_not_type by done. by destruct is_annotation.
Qed.

Lemma keyword_suffix_collides_witness :
  "type" ∈ rust_keywords ∧
  visit (ast.Name "type" false) = visit (ast.Name "type_" false).
Proof.
  assert ("type" ∈ rust_keywords) as Hk by by vm_compute.
  split; [exact Hk |].
  exact (proj1 (proj2 (keyword_suffix_collides "type" false Hk))).
Defined.

(** ** String literals *)

Lemma replace_char_cons (old : ascii) (new : string) (c : ascii) (s : string) :
  replace_char old new (String c s)
  = if Ascii.eqb c old then new +:+ replace_char old new s
    else String c (replace_char old new s).
Proof. reflexivity. Qed.

(** After the escape, what follows a character of the source is never a
    bare double quote. *)
Lemma escaped_head_not_quote (s : string) :
  match replace_char dquote (String backslash DQ) s with
  | EmptyString => True
  | String d _ => Ascii.eqb d dquote = false
  end.
Proof.
  destruct s as [|c s]; [done |]. rewrite replace_char_cons.
  destruct (Ascii.eqb c dquote) eqn:Hc; [done | exact Hc].
Qed.

Lemma unescape_quotes_escape (s : string) :
  unescape_quotes (replace_char dquote (String backslash DQ) s) = s.
Proof.
  induction s as [|c s IH]; [done |]. rewrite replace_char_cons.
  destruct (Ascii.eqb_spec c dquote) as [-> | Hc].
  - change (String backslash DQ +:+ ?r) with (String backslash (String dquote r)).
    simpl. by rewrite IH.
  - pose proof (escaped_head_not_quote s) as Hhead.
    cbn [unescape_quotes].
    destruct (Ascii.eqb c backslash); [| by rewrite IH].
    destruct (replace_char dquote (String backslash DQ) s) as [|d r] eqn:Hr.
    + by rewrite <- IH.
    + rewrite Hhead. by rewrite IH.
Qed.

Lemma quotes_escaped_escape (after_backslash : bool) (s : string) :
  quotes_escaped after_backslash
    (replace_char dquote (String backslash DQ) s) = true.
Proof.
  revert after_backslash. induction s as [|c s IH]; intros b; [done |].
  rewrite replace_char_cons.
  destruct (Ascii.eqb c dquote) eqn:Hc.
  - change (String backslash DQ +:+ ?r) with (String backslash (String dquote r)).
    simpl. apply IH.
  - cbn [quotes_escaped]. rewrite Hc. apply IH.
Qed.

Lemma append_inj_l (a b c : string) : a +:+ c = b +:+ c -> a = b.
Proof.
  revert b. induction a as [|x a IH]; intros [|y b] H; [done | | |].
  - apply (f_equal String.length) in H.
    rewrite !length_append in H. simpl in H. lia.
  - apply (f_equal String.length) in H.
    rewrite !length_append in H. simpl in H. lia.
  - rewrite !append_cons in H. injection H as -> H. f_equal. by apply IH.
Qed.

(** X6.  A string constant is rendered between two double quotes, with every
    double quote of the body right after a backslash; dropping the backslash
    in front of each double quote of the body gives the source string
    back. *)
Theorem visit_Str_escapes_quotes (s : string) :
  ∃ body,
    visit (ast.Constant (ast.CStr s)) = Ok (VStr (DQ +:+ body +:+ DQ)) ∧
    quotes_escaped false body = true ∧
    unescape_quotes body = s.
Proof.
  exists (replace_char dquote (String backslash DQ) s).
  split; [reflexivity |].
  split; [apply quotes_escaped_escape | apply unescape_quotes_escape].
Qed.

(** X7.  Two string constants with the same translation hold the same
    string: [visit_Str] loses nothing of its argument. *)
Theorem visit_Str_injective (s1 s2 : string) :
  visit (ast.Constant (ast.CStr s1)) = visit (ast.Constant (ast.CStr s2)) ->
  s1 = s2.
Proof.
  change (visit (ast.Constant (ast.CStr s1))) with (visit_Str s1).
  change (visit (ast.Constant (ast.CStr s2))) with (visit_Str s2).
  unfold visit_Str. intros [= H].
  change (EmptyString +:+ ?x) with x in H.
  apply append_inj_l in H.
  rewrite <- (unescape_quotes_escape s1), <- (unescape_quotes_escape s2).
  by rewrite H.
Qed.

Lemma visit_Str_injective_witness :
  visit (ast.Constant (ast.CStr "say"))
  = visit (ast.Constant (ast.CStr "say")) ∧
  "say" = "say".
Proof.
  split; [reflexivity |].
  apply (visit_Str_injective "say" "say"). reflexivity.
Defined.

(** ** Loops and boolean operations *)

Lemma visit_While_eq test body orelse :
  visit (ast.While test body orelse) = visit_While visit test body.
Proof. reflexivity. Qed.

Lemma visit_BoolOp_eq op values :
  visit (ast.BoolOp op values) = visit_BoolOp visit op values.
Proof. reflexivity. Qed.

(** X8.  A loop whose test and statements translate is rendered as the line
    [while <test> {], the translations of the statements of the body and a
    closing [}], joined by line feeds.  The [else] branch of the loop has no
    part in it: it is not rendered and not even visited, so nothing in it
    can make the translation fail. *)
Theorem visit_While_layout (test : ast.node) (body orelse : list ast.node)
    (vt : pyval) (bs : list string) :
  visit test = Ok vt ->
  Forall2 (λ child text, visit child = Ok (VStr text)) body bs ->
  visit (ast.While test body orelse)
  = Ok (VStr (String.concat (String "010" EmptyString)
                (("while " +:+ format_arg vt +:+ " {") :: bs ++ ["}"]))) ∧
  visit (ast.While test body orelse) = visit (ast.While test body []).
Proof.
  intros Ht Hb. split; [| reflexivity]. rewrite <- join_concat.
  rewrite visit_While_eq. unfold visit_While.
  rewrite Ht, (mapM_Forall2 _ _ _ _ Hb), !bind_Ok.
  change [VStr "}"] with (VStr <$> ["}"]).
  change [VStr ("while " +:+ format_arg vt +:+ " {")]
    with (VStr <$> ["while " +:+ format_arg vt +:+ " {"]).
  rewrite <- !fmap_app, str_join_strings. reflexivity.
Qed.

Lemma visit_While_layout_witness :
  visit (ast.Name "True" false) = Ok (VStr "true") ∧
  visit (ast.While (ast.Name "True" false) [ast.Break]
           [ast.Compare (ast.Name "a" false) [] []])
  = Ok (VStr ("while true {" +:+ String "010" ("break;" +:+
              String "010" "}"))).
Proof.
  split; [reflexivity |].
  refine (proj1 (visit_While_layout (ast.Name "True" false) [ast.Break]
                   [ast.Compare (ast.Name "a" false) [] []]
                   (VStr "true") ["break;"] eq_refl _)).
  repeat constructor.
Defined.

(** X9.  A boolean operation whose operands translate is rendered as their
    translations joined by the symbol of the operator, with no space and no
    parenthesis added: without operands it is the empty string, with one
    operand it is that operand alone. *)
Theorem visit_BoolOp_join (op : ast.boolop) (values : list ast.node)
    (ts : list string) :
  Forall2 (λ operand text, visit operand = Ok (VStr text)) values ts ->
  ∃ tok,
    symbols (ast.type_boolop op) = Some tok ∧
    visit (ast.BoolOp op values) = Ok (VStr (join tok ts)) ∧
    (ts = [] -> visit (ast.BoolOp op values) = Ok (VStr EmptyString)) ∧
    (∀ t, ts = [t] -> visit (ast.BoolOp op values) = Ok (VStr t)).
Proof.
  intros Hv.
  assert (∃ tok, symbols (ast.type_boolop op) = Some tok) as [tok Htok]
    by (destruct op; eauto).
  exists tok. split; [done |].
  assert (visit (ast.BoolOp op values) = Ok (VStr (join tok ts))) as H.
  { rewrite visit_BoolOp_eq. unfold visit_BoolOp.
    rewrite (visit_symbol_Some _ _ Htok), bind_Ok.
    by rewrite (mapM_Forall2 _ _ _ _ Hv), bind_Ok, str_join_strings. }
  split; [exact H |]. split; [by intros -> | by intros t ->].
Qed.

Lemma visit_BoolOp_join_witness :
  ∃ tok,
    symbols (ast.type_boolop ast.And) = Some tok ∧
    visit (ast.BoolOp ast.And [ast.Name "a" false; ast.Name "b" false])
    = Ok (VStr (join tok ["a"; "b"])) ∧
    (["a"; "b"] = [] ->
       visit (ast.BoolOp ast.And [ast.Name "a" false; ast.Name "b" false])
       = Ok (VStr EmptyString)) ∧
    (∀ t, ["a"; "b"] = [t] ->
       visit (ast.BoolOp ast.And [ast.Name "a" false; ast.Name "b" false])
       = Ok (VStr t)).
Proof.
  apply (visit_BoolOp_join ast.And
           [ast.Name "a" false; ast.Name "b" false] ["a"; "b"]).
  repeat constructor.
Defined.

(** ** A child that has no text *)

(** X10.  [str.join] wants strings: when every statement of a conditional
    or of a loop is visited without failure and one of them has no text (its
    translation is [None], as for a statement of a class without method),
    the translation of the conditional or of the loop raises a
    [TypeError]. *)
Theorem statement_without_text_raises_TypeError (test : ast.node)
    (vt : pyval) :
  visit test = Ok vt ->
  (∀ body orelse bs es,
     mapM visit body = Ok bs -> mapM visit orelse = Ok es ->
     VNone ∈ bs ++ es ->
     visit (ast.If test body orelse) = Raise TypeError) ∧
  (∀ body orelse bs,
     mapM visit body = Ok bs -> VNone ∈ bs ->
     visit (ast.While test body orelse) = Raise TypeError).
Proof.
  intros Ht. split.
  - intros body orelse bs es Hb He Hin.
    rewrite visit_If_eq. unfold visit_If. rewrite Ht, Hb, He, !bind_Ok.
    rewrite str_join_None; [done |].
    apply elem_of_app in Hin as [Hin | Hin].
    + destruct es; rewrite !elem_of_app; tauto.
    + destruct es as [|e es]; [by apply elem_of_nil in Hin |].
      rewrite !elem_of_app. tauto.
  - intros body orelse bs Hb Hin.
    rewrite visit_While_eq. unfold visit_While. rewrite Ht, Hb, !bind_Ok.
    rewrite str_join_None; [done |]. rewrite !elem_of_app. tauto.
Qed.

Lemma statement_without_text_raises_TypeError_witness :
  visit (ast.Name "c" false) = Ok (VStr "c") ∧
  visit (ast.If (ast.Name "c" false)
           [ast.Other "Assign" [ast.Name "x" false]] [])
  = Raise TypeError ∧
  visit (ast.While (ast.Name "c" false)
           [ast.Other "Assign" [ast.Name "x" false]] [])
  = Raise TypeError.
Proof.
  split; [reflexivity |].
  destruct (statement_without_text_raises_TypeError
              (ast.Name "c" false) (VStr "c") eq_refl) as [HIf HWhile].
  split.
  - apply (HIf _ _ [VNone] []); [reflexivity | reflexivity | by left].
  - apply (HWhile _ _ [VNone]); [reflexivity | by left].
Defined.

(** X11.  The same holds for the operands of a boolean operation: when they
    are all visited without failure and one of them has no text, the
    translation raises a [TypeError]. *)
Theorem operand_without_text_raises_TypeError (op : ast.boolop)
    (values : list ast.node) (vs : list pyval) :
  mapM visit values = Ok vs ->
  VNone ∈ vs ->
  visit (ast.BoolOp op values) = Raise TypeError.
Proof.
  intros Hv Hin. rewrite visit_BoolOp_eq. unfold visit_BoolOp.
  destruct op; simpl; by rewrite Hv, bind_Ok, str_join_None.
Qed.

Lemma operand_without_text_raises_TypeError_witness :
  mapM visit [ast.Name "a" false; ast.Other "Call" []]
  = Ok [VStr "a"; VNone] ∧
  VNone ∈ [VStr "a"; VNone] ∧
  visit (ast.BoolOp ast.And [ast.Name "a" false; ast.Other "Call" []])
  = Raise TypeError.
Proof.
  split; [reflexivity |].
  assert (VNone ∈ [VStr "a"; VNone]) as Hin by (right; left).
  split; [exact Hin |].
  apply (operand_without_text_raises_TypeError ast.And
           [ast.Name "a" false; ast.Other "Call" []] [VStr "a"; VNone]);
    [reflexivity | exact Hin].
Defined.

(** ** Interpolated strings: failures and what is ignored *)

Lemma mapM_app {A B : Type} (f : A -> result B) (l1 l2 : list A) :
  mapM f (l1 ++ l2) = (a ← mapM f l1; b ← mapM f l2; Ok (a ++ b)).
Proof.
  induction l1 as [|x l1 IH].
  - simpl. by destruct (mapM f l2).
  - rewrite <- app_comm_cons, !mapM_cons, IH.
    destruct (f x); [| done]. rewrite !bind_Ok.
    destruct (mapM f l1); [| done]. rewrite !bind_Ok.
    by destruct (mapM f l2).
Qed.

Lemma foldM_app {A B : Type} (f : B -> A -> result B) (l1 l2 : list A)
    (acc : B) :
  foldM f (l1 ++ l2) acc = (a ← foldM f l1 acc; foldM f l2 a).
Proof.
  revert acc. induction l1 as [|x l1 IH]; intros acc; [done |].
  simpl. destruct (f acc x); [apply IH | done].
Qed.

Lemma inner_expressions_app (l1 l2 : list ast.fpart) :
  inner_expressions (l1 ++ l2) = inner_expressions l1 ++ inner_expressions l2.
Proof.
  induction l1 as [|[text | value conv spec] l1 IH]; [done | exact IH |].
  simpl. by rewrite IH.
Qed.

Lemma foldM_add_part_returns (values : list ast.fpart) (response : string) :
  forallb part_opens_with_text values = true ->
  ∃ text, foldM add_part values response = Ok text.
Proof.
  revert response.
  induction values as [|[text | value conv [[|[t | v c s] spec]|]] values IH];
    intros response Hok; simpl in Hok; try done; simpl; eauto.
Qed.

(** X12.  An interpolated string whose specifiers all open with literal
    text, and whose inner expressions are all visited without failure,
    raises a [TypeError] as soon as one inner expression has no text (as a
    call or an attribute access, for which the class has no method). *)
Theorem inner_expression_without_text_raises_TypeError
    (values : list ast.fpart) (vs : list pyval) :
  forallb part_opens_with_text values = true ->
  mapM visit (inner_expressions values) = Ok vs ->
  VNone ∈ vs ->
  visit (ast.JoinedStr values) = Raise TypeError.
Proof.
  intros Hspecs Hvs Hin. rewrite visit_JoinedStr_eq. unfold visit_JoinedStr.
  rewrite formatted_values_mapM, Hvs, bind_Ok.
  destruct (foldM_add_part_returns values ("format!(" +:+ DQ) Hspecs)
    as [text ->].
  by rewrite bind_Ok, str_join_None.
Qed.

Lemma inner_expression_without_text_raises_TypeError_witness :
  forallb part_opens_with_text
    [ast.Text "n="; ast.FormattedValue (ast.Other "Call" []) (-1) None]
  = true ∧
  mapM visit
    (inner_expressions
       [ast.Text "n="; ast.FormattedValue (ast.Other "Call" []) (-1) None])
  = Ok [VNone] ∧
  visit (ast.JoinedStr
           [ast.Text "n="; ast.FormattedValue (ast.Other "Call" []) (-1) None])
  = Raise TypeError.
Proof.
  split; [reflexivity |]. split; [reflexivity |].
  apply (inner_expression_without_text_raises_TypeError
           [ast.Text "n="; ast.FormattedValue (ast.Other "Call" []) (-1) None]
           [VNone]); [reflexivity | reflexivity | by left].
Defined.

Lemma visit_JoinedStr_bad_part (pre post : list ast.fpart)
    (segs : list segment) (value : ast.node) (conversion : Z)
    (format_spec : list ast.fpart) (v : pyval) (vs : list pyval) (e : exn) :
  Forall2 describes segs pre ->
  visit value = Ok v ->
  mapM visit (inner_expressions post) = Ok vs ->
  visit_FormatSpec format_spec = Raise e ->
  visit (ast.JoinedStr
           (pre ++ ast.FormattedValue value conversion (Some format_spec)
                :: post))
  = Raise e.
Proof.
  intros Hpre Hvalue Hpost Hspec.
  rewrite visit_JoinedStr_eq. unfold visit_JoinedStr.
  pose proof (formatted_values_arguments _ _ Hpre) as Hargs.
  rewrite formatted_values_mapM in Hargs.
  rewrite formatted_values_mapM, inner_expressions_app, mapM_app, Hargs.
  cbn [inner_expressions]. rewrite mapM_cons, Hvalue, Hpost, !bind_Ok.
  rewrite foldM_app, (foldM_add_part_template _ _ Hpre), bind_Ok.
  simpl. by rewrite Hspec.
Qed.

(** X13.  A specifier that does not open with literal text stops the
    translation of the interpolated string, when the parts before it are in
    order and the inner expressions are visited without failure: an empty
    specifier, as in [f"{x:}"], raises an [IndexError]; a specifier that
    opens with a nested field, as in [f"{x:{w}}"], raises an
    [AttributeError]. *)
Theorem malformed_specifier_raises (pre post : list ast.fpart)
    (segs : list segment) (value : ast.node) (conversion : Z)
    (v : pyval) (vs : list pyval) :
  Forall2 describes segs pre ->
  visit value = Ok v ->
  mapM visit (inner_expressions post) = Ok vs ->
  visit (ast.JoinedStr
           (pre ++ ast.FormattedValue value conversion (Some []) :: post))
  = Raise IndexError ∧
  ∀ nested conversion' format_spec more,
    visit (ast.JoinedStr
             (pre ++ ast.FormattedValue value conversion
                       (Some (ast.FormattedValue nested conversion' format_spec
                              :: more))
                  :: post))
    = Raise AttributeError.
Proof.
  intros Hpre Hvalue Hpost. split.
  - by apply (visit_JoinedStr_bad_part pre post segs value conversion [] v vs).
  - intros nested conversion' format_spec more.
    by apply (visit_JoinedStr_bad_part pre post segs value conversion _ v vs).
Qed.

Lemma malformed_specifier_raises_witness :
  visit (ast.Name "x" false) = Ok (VStr "x") ∧
  visit (ast.JoinedStr
           [ast.Text "x="; ast.FormattedValue (ast.Name "x" false) (-1)
                             (Some [])])
  = Raise IndexError ∧
  visit (ast.JoinedStr
           [ast.Text "x=";
            ast.FormattedValue (ast.Name "x" false) (-1)
              (Some [ast.FormattedValue (ast.Name "w" false) (-1) None])])
  = Raise AttributeError.
Proof.
  split; [reflexivity |].
  destruct (malformed_specifier_raises [ast.Text "x="] [] [Literal "x="]
              (ast.Name "x" false) (-1) (VStr "x") [])
    as [Hempty Hnested];
    [repeat constructor | reflexivity | reflexivity |].
  split; [exact Hempty | apply Hnested].
Defined.

Lemma same_rendering_formatted_values (values values' : list ast.fpart) :
  Forall2 same_rendering values values' ->
  formatted_values visit values = formatted_values visit values'.
Proof.
  induction 1 as [|p q values values' Hpq _ IH]; [done |].
  destruct Hpq; simpl; by rewrite IH.
Qed.

Lemma same_rendering_foldM (values values' : list ast.fpart) :
  Forall2 same_rendering values values' ->
  ∀ response,
    foldM add_part values response = foldM add_part values' response.
Proof.
  induction 1 as [|p q values values' Hpq _ IH]; intros response; [done |].
  destruct Hpq as [text | value c c' | value c c' | value c c' first more more'];
    simpl; try apply IH; try done.
  destruct first; simpl; [apply IH | done].
Qed.

(** X14.  Two interpolated strings whose parts differ only by the conversion
    flag ([!r], [!s], [!a]) and by what follows the first run of a specifier
    have the same translation: the flag and the rest of the specifier are
    never read. *)
Theorem conversion_and_specifier_tail_ignored
    (values values' : list ast.fpart) :
  Forall2 same_rendering values values' ->
  visit (ast.JoinedStr values) = visit (ast.JoinedStr values').
Proof.
  intros H. rewrite !visit_JoinedStr_eq. unfold visit_JoinedStr.
  by rewrite (same_rendering_formatted_values _ _ H),
    (same_rendering_foldM _ _ H).
Qed.

Lemma conversion_and_specifier_tail_ignored_witness :
  visit (ast.JoinedStr
           [ast.FormattedValue (ast.Name "x" false) 114 None;
            ast.FormattedValue (ast.Name "y" false) (-1)
              (Some [ast.Text ">";
                     ast.FormattedValue (ast.Name "w" false) (-1) None])])
  = visit (ast.JoinedStr
             [ast.FormattedValue (ast.Name "x" false) (-1) None;
              ast.FormattedValue (ast.Name "y" false) (-1)
                (Some [ast.Text ">"])]).
Proof.
  apply conversion_and_specifier_tail_ignored.
  repeat constructor.
Defined.

(** ** Comparisons without operator or comparator *)

(** X15.  [visit_Compare] indexes [ops] and [comparators] at 0 without a
    test: a comparison whose left operand is visited without failure and
    that has no operator, or no comparator, raises an [IndexError]. *)
Theorem Compare_without_pair_raises_IndexError (lhs : ast.node)
    (ops : list ast.cmpop) (comparators : list ast.node) (vl : pyval) :
  visit lhs = Ok vl ->
  ops = [] ∨ comparators = [] ->
  visit (ast.Compare lhs ops comparators) = Raise IndexError.
Proof.
  intros Hl Hempty. rewrite visit_Compare_eq. unfold visit_Compare.
  rewrite Hl, bind_Ok. destruct ops as [|o ops]; [done |].
  destruct Hempty as [| ->]; [done |].
  destruct (visit_symbol_returns (ast.type_cmpop o)) as [v ->]. done.
Qed.

Lemma Compare_without_pair_raises_IndexError_witness :
  visit (ast.Name "a" false) = Ok (VStr "a") ∧
  visit (ast.Compare (ast.Name "a" false) [ast.Lt] []) = Raise IndexError.
Proof.
  split; [reflexivity |].
  apply (Compare_without_pair_raises_IndexError
           (ast.Name "a" false) [ast.Lt] [] (VStr "a"));
    [reflexivity | by right].
Defined.

(** ** Augmented assignments *)

Lemma visit_AugAssign_eq target op value :
  visit (ast.AugAssign target op value)
  = visit_AugAssign visit target op value.
Proof. reflexivity. Qed.

(** X16.  An augmented assignment whose target and value translate is
    rendered as the target, a space, the symbol of the operator followed by
    [=], a space, the value and [;].  The exponentiation has no case of its
    own here, unlike in [visit_BinOp]: [**=] and [@=], whose operators are
    not keys of [symbols], are rendered with the word [None] in place of the
    symbol. *)
Theorem visit_AugAssign_layout (target : ast.node) (op : ast.operator)
    (value : ast.node) (vt vv : pyval) :
  visit target = Ok vt ->
  visit value = Ok vv ->
  (∀ tok, symbols (ast.type_operator op) = Some tok ->
     visit (ast.AugAssign target op value)
     = Ok (VStr (format_arg vt +:+ " " +:+ tok +:+ "= " +:+ format_arg vv
                  +:+ ";"))) ∧
  (op = ast.Pow ∨ op = ast.MatMult ->
     visit (ast.AugAssign target op value)
     = Ok (VStr (format_arg vt +:+ " " +:+ "None" +:+ "= " +:+ format_arg vv
                  +:+ ";"))).
Proof.
  intros Ht Hv. rewrite visit_AugAssign_eq. unfold visit_AugAssign. split.
  - intros tok Htok. by rewrite Ht, (visit_symbol_Some _ _ Htok), Hv.
  - intros [-> | ->]; by rewrite Ht, Hv.
Qed.

Lemma visit_AugAssign_layout_witness :
  visit (ast.Name "x" false) = Ok (VStr "x") ∧
  visit (ast.Constant (ast.CNum (ast.NInt 1))) = Ok (VStr "1") ∧
  visit (ast.AugAssign (ast.Name "x" false) ast.Add
           (ast.Constant (ast.CNum (ast.NInt 1))))
  = Ok (VStr "x += 1;") ∧
  visit (ast.AugAssign (ast.Name "x" false) ast.Pow
           (ast.Constant (ast.CNum (ast.NInt 1))))
  = Ok (VStr "x None= 1;").
Proof.
  split; [reflexivity |]. split; [reflexivity |].
  destruct (visit_AugAssign_layout (ast.Name "x" false) ast.Pow
              (ast.Constant (ast.CNum (ast.NInt 1))) (VStr "x") (VStr "1")
              eq_refl eq_refl) as [_ HPow].
  destruct (visit_AugAssign_layout (ast.Name "x" false) ast.Add
              (ast.Constant (ast.CNum (ast.NInt 1))) (VStr "x") (VStr "1")
              eq_refl eq_refl) as [HAdd _].
  split; [apply (HAdd "+"); reflexivity | apply HPow; by left].
Defined.

(** ** Children printed as [None] *)

(** X17.  The methods that format their children do not fail on a child
    that has no text: they print it as the word [None].  A [return] of such
    an expression becomes [return None;], and the method calls built for an
    exponentiation and for a membership test are made on, or given,
    [None]. *)
Theorem child_without_text_printed_as_None (e r : ast.node) (vr : pyval) :
  visit e = Ok VNone ->
  visit r = Ok vr ->
  visit (ast.Return (Some e)) = Ok (VStr "return None;") ∧
  visit (ast.BinOp e ast.Pow r)
  = Ok (VStr ("None.pow(" +:+ format_arg vr +:+ ")")) ∧
  visit (ast.Compare e [ast.In] [r])
  = Ok (VStr (format_arg vr +:+ ".any(None)")).
Proof.
  intros He Hr. split; [| split].
  - change (visit (ast.Return (Some e))) with (visit_Return visit (Some e)).
    unfold visit_Return. by rewrite He.
  - rewrite visit_BinOp_eq. unfold visit_BinOp. by rewrite He, Hr.
  - rewrite visit_Compare_eq. unfold visit_Compare. by rewrite He, Hr.
Qed.

Lemma child_without_text_printed_as_None_witness :
  visit (ast.Other "Call" [ast.Name "f" false]) = Ok VNone ∧
  visit (ast.Name "xs" false) = Ok (VStr "xs") ∧
  visit (ast.Return (Some (ast.Other "Call" [ast.Name "f" false])))
  = Ok (VStr "return None;").
Proof.
  split; [reflexivity |]. split; [reflexivity |].
  exact (proj1 (child_without_text_printed_as_None
                  (ast.Other "Call" [ast.Name "f" false])
                  (ast.Name "xs" false) (VStr "xs") eq_refl eq_refl)).
Defined.

(** ** Constants *)

(** X18.  What a constant gives.  Its translation fails in one case only,
    with a [ValueError]: an integer of more than 4300 digits.  It is [None]
    exactly for the values [None], [bytes] and [Ellipsis], a tuple and a
    frozenset.  Every other constant (a boolean, a string, a float, a
    complex, an integer within the limit) has a text. *)
Theorem visit_Constant_outcome (c : ast.constant) :
  (∀ e, visit (ast.Constant c) = Raise e ↔
        e = ValueError ∧
        ∃ z, c = ast.CNum (ast.NInt z) ∧ int_max_str <= Z.abs z) ∧
  (visit (ast.Constant c) = Ok VNone ↔
     c = ast.CNone ∨ (∃ b, c = ast.CBytes b) ∨ c = ast.CEllipsis ∨
     (∃ items, c = ast.CTuple items) ∨ (∃ items, c = ast.CFrozenset items)) ∧
  ((∃ text, visit (ast.Constant c) = Ok (VStr text)) ∨
   visit (ast.Constant c) = Ok VNone ∨
   visit (ast.Constant c) = Raise ValueError).
Proof.
  destruct c as [| [|] | [z | f | re im] | s | b | | items | items];
    try (split; [| split];
         [ intros e; split; [intros H; discriminate H |];
           intros (_ & z' & H & _); discriminate H
         | split; [intros H; try discriminate H; eauto 10 |];
           intros [H | [[b' H] | [H | [[i H] | [i H]]]]];
           try discriminate H; reflexivity
         | first [left; eexists; reflexivity | right; left; reflexivity] ]).
  change (visit (ast.Constant (ast.CNum (ast.NInt z))))
    with (text ← str_int z; Ok (VStr text)).
  unfold str_int. destruct (int_max_str <=? Z.abs z) eqn:Hz.
  - split; [| split].
    + intros e. split; [intros [= <-] | intros [-> _]; done].
      split; [done |]. exists z. split; [done | lia].
    + split; [intros H; discriminate H |].
      intros [H | [[b' H] | [H | [[i H] | [i H]]]]]; discriminate H.
    + right. right. reflexivity.
  - rewrite bind_Ok. split; [| split].
    + intros e. split; [intros H; discriminate H |].
      intros (_ & z' & [= <-] & Hz'). lia.
    + split; [intros H; discriminate H |].
      intros [H | [[b' H] | [H | [[i H] | [i H]]]]]; discriminate H.
    + left. eauto.
Qed.

(** ** Grouping of boolean operations *)

(** X19.  [visit_BoolOp] adds no parenthesis, so the grouping of nested
    boolean operations is lost: [(a or b) and c] and [a or (b and c)], two
    different trees, have the same translation, the operands and the two
    symbols in a row. *)
Theorem BoolOp_grouping_lost (a b c : ast.node) (ta tb tc : string) :
  visit a = Ok (VStr ta) ->
  visit b = Ok (VStr tb) ->
  visit c = Ok (VStr tc) ->
  visit (ast.BoolOp ast.And [ast.BoolOp ast.Or [a; b]; c])
  = Ok (VStr (ta +:+ "||" +:+ tb +:+ "&&" +:+ tc)) ∧
  visit (ast.BoolOp ast.Or [a; ast.BoolOp ast.And [b; c]])
  = Ok (VStr (ta +:+ "||" +:+ tb +:+ "&&" +:+ tc)).
Proof.
  intros Ha Hb Hc.
  assert (visit (ast.BoolOp ast.Or [a; b]) = Ok (VStr (ta +:+ "||" +:+ tb)))
    as Hor.
  { rewrite visit_BoolOp_eq. unfold visit_BoolOp. simpl. by rewrite Ha, Hb. }
  assert (visit (ast.BoolOp ast.And [b; c]) = Ok (VStr (tb +:+ "&&" +:+ tc)))
    as Hand.
  { rewrite visit_BoolOp_eq. unfold visit_BoolOp. simpl. by rewrite Hb, Hc. }
  split.
  - rewrite visit_BoolOp_eq. unfold visit_BoolOp.
    change (visit_symbol (ast.type_boolop ast.And)) with (Ok (VStr "&&")).
    rewrite bind_Ok, !mapM_cons, Hor, Hc. simpl.
    by rewrite !append_assoc.
  - rewrite visit_BoolOp_eq. unfold visit_BoolOp.
    change (visit_symbol (ast.type_boolop ast.Or)) with (Ok (VStr "||")).
    rewrite bind_Ok, !mapM_cons, Ha, Hand. reflexivity.
Qed.

Lemma BoolOp_grouping_lost_witness :
  visit (ast.Name "a" false) = Ok (VStr "a") ∧
  visit (ast.Name "b" false) = Ok (VStr "b") ∧
  visit (ast.Name "c" false) = Ok (VStr "c") ∧
  visit (ast.BoolOp ast.And
           [ast.BoolOp ast.Or [ast.Name "a" false; ast.Name "b" false];
            ast.Name "c" false])
  = Ok (VStr "a||b&&c") ∧
  visit (ast.BoolOp ast.Or
           [ast.Name "a" false;
            ast.BoolOp ast.And [ast.Name "b" false; ast.Name "c" false]])
  = Ok (VStr "a||b&&c").
Proof.
  split; [reflexivity |]. split; [reflexivity |]. split; [reflexivity |].
  exact (BoolOp_grouping_lost (ast.Name "a" false) (ast.Name "b" false)
           (ast.Name "c" false) "a" "b" "c" eq_refl eq_refl eq_refl).
Defined.

(** ** The table of symbols *)

(** X20.  Two different classes have the same symbol in [symbols] in four
    cases only: [Eq] and [Is], [NotEq] and [IsNot], [Div] and [FloorDiv],
    [Sub] and [USub].  Every other key has a symbol of its own. *)
Theorem symbols_collisions (t1 t2 : ast.type) (tok : string) :
  symbols t1 = Some tok ->
  symbols t2 = Some tok ->
  t1 = t2 ∨
  (t1, t2) ∈
    [ (ast.type_cmpop ast.Eq, ast.type_cmpop ast.Is);
      (ast.type_cmpop ast.Is, ast.type_cmpop ast.Eq);
      (ast.type_cmpop ast.NotEq, ast.type_cmpop ast.IsNot);
      (ast.type_cmpop ast.IsNot, ast.type_cmpop ast.NotEq);
      (ast.type_operator ast.Div, ast.type_operator ast.FloorDiv);
      (ast.type_operator ast.FloorDiv, ast.type_operator ast.Div);
      (ast.type_operator ast.Sub, ast.type_unaryop ast.USub);
      (ast.type_unaryop ast.USub, ast.type_operator ast.Sub) ].
Proof.
  intros H1 H2.
  destruct t1 as [[] | [] | [] | [] | | | | | | | | | | | | | | |];
    simpl in H1; try discriminate H1; injection H1 as <-;
    destruct t2 as [[] | [] | [] | [] | | | | | | | | | | | | | | |];
    simpl in H2; try discriminate H2;
    first [left; reflexivity | right; repeat (first [left | right])].
Qed.

Lemma symbols_collisions_witness :
  symbols (ast.type_operator ast.Sub) = Some "-" ∧
  symbols (ast.type_unaryop ast.USub) = Some "-" ∧
  (ast.type_operator ast.Sub = ast.type_unaryop ast.USub ∨
   (ast.type_operator ast.Sub, ast.type_unaryop ast.USub) ∈
     [ (ast.type_cmpop ast.Eq, ast.type_cmpop ast.Is);
       (ast.type_cmpop ast.Is, ast.type_cmpop ast.Eq);
       (ast.type_cmpop ast.NotEq, ast.type_cmpop ast.IsNot);
       (ast.type_cmpop ast.IsNot, ast.type_cmpop ast.NotEq);
       (ast.type_operator ast.Div, ast.type_operator ast.FloorDiv);
       (ast.type_operator ast.FloorDiv, ast.type_operator ast.Div);
       (ast.type_operator ast.Sub, ast.type_unaryop ast.USub);
       (ast.type_unaryop ast.USub, ast.type_operator ast.Sub) ]).
Proof.
  split; [reflexivity |]. split; [reflexivity |].
  apply (symbols_collisions (ast.type_operator ast.Sub)
           (ast.type_unaryop ast.USub) "-"); reflexivity.
Defined.

(** ** Translating a translated identifier *)

(** X21.  The translation of identifiers is idempotent: the text an
    identifier is translated to, taken as an identifier in the same
    position, is translated to itself. *)
Theorem visit_Name_idempotent (id text : string) (is_annotation : bool) :
  visit (ast.Name id is_annotation) = Ok (VStr text) ->
  visit (ast.Name text is_annotation) = Ok (VStr text).
Proof.
  rewrite !visit_Name_eq. unfold visit_Name at 1.
  destruct (decide (id ∈ builtin_constants)) as [Hb | Hb].
  { apply elem_of_builtin_constants in Hb as [-> | ->];
      intros [= <-]; by destruct is_annotation. }
  destruct (decide (id ∈ rust_keywords)) as [Hk | Hk].
  { intros [= <-]. unfold visit_Name.
    rewrite decide_False by by apply suffixed_keyword_not_constant.
    rewrite decide_False by by apply suffixed_keyword_not_keyword.
    rewrite suffixed_keyword_not_type by done. by destruct is_annotation. }
  assert (visit_Name id is_annotation = Ok (VStr id) ->
          Ok (VStr id) = Ok (VStr text) ->
          visit_Name text is_annotation = Ok (VStr text)) as Hsame
    by (intros H [= <-]; exact H).
  destruct is_annotation.
  - destruct (type_map !! id) as [t |] eqn:Ht.
    + intros [= <-]. apply type_map_values in Ht.
      repeat (apply elem_of_cons in Ht as [-> | Ht]);
        [.. | by apply elem_of_nil in Ht]; reflexivity.
    + apply Hsame. unfold visit_Name.
      by rewrite decide_False, decide_False, Ht.
  - apply Hsame. unfold visit_Name. by rewrite decide_False, decide_False.
Qed.

Lemma visit_Name_idempotent_witness :
  visit (ast.Name "int" true) = Ok (VStr "i32") ∧
  visit (ast.Name "i32" true) = Ok (VStr "i32").
Proof.
  split; [reflexivity |].
  apply (visit_Name_idempotent "int" "i32" true). reflexivity.
Defined.
